(** * nbexchange plugin: a shallow embedding of [nbexchange/plugin/exchange.py]

    The development follows the layout of the Python module:

    - [Py]        the fragments of the Python runtime the module relies on
                  (exceptions, [str.format], [posixpath.join], [str.strip]);
    - [Template]  [contains_format], [format_keys], [maybe_format] and
                  [get_directory_structure];
    - [Fs], [Scan] a tree model of the POSIX filesystem and [get_files];
    - [Api]       [api_request];
    - [Collect], [Submit], [Fetch]  the three transfer operations;
    - [Walk], [Match]  what a scan finds, in terms of the structure;
    - [Group]     [group_by];
    - [Layout]    the course directory and the assignment directory:
                  [construct_course_dir], [get_course_dir],
                  [get_assignment_dir] and the functions built on them;
    - [NotFound]  [_assignment_not_found];
    - [Examples]  the scenarios of the test suite that the properties are run
                  on.

    The properties follow, one module of facts for each module of
    definitions.  Python strings are modelled by [string]; a character is an
    [ascii]. *)

From stdpp Require Import base option list strings gmap sets sorting.
From Stdlib Require Import Ascii String ZArith Lia Permutation.

Open Scope string_scope.
Open Scope nat_scope.
Open Scope list_scope.
Open Scope stdpp_scope.

(** ** The Python runtime *)

Module Py.

(** The exception classes that the modelled code can raise. *)
Inductive exn : Type :=
  | KeyError (key : string)
  | ValueError (msg : string)
  | IndexError (msg : string)
  | TypeError (msg : string)
  | NotImplementedError (msg : string)
  | NotADirectoryError (path : string)
  | FileNotFoundError (path : string)
  | ExchangeError (msg : string)
  | OtherError (msg : string).

(** The outcome of a call: a value, or a raised exception. *)
Inductive result (A : Type) : Type :=
  | Returned (a : A)
  | Raised (e : exn).
Arguments Returned {A} a.
Arguments Raised {A} e.

#[global] Instance result_ret : MRet result := @Returned.
#[global] Instance result_bind : MBind result := λ A B k m,
  match m with
  | Returned a => k a
  | Raised e => Raised e
  end.

(** Keyword arguments: a dict from names to string values. *)
Abbreviation kwargs := (gmap string string).

Definition is_open (c : ascii) : bool := Ascii.eqb c "{".
Definition is_close (c : ascii) : bool := Ascii.eqb c "}".
Definition is_brace (c : ascii) : bool := is_open c || is_close c.
Definition is_slash (c : ascii) : bool := Ascii.eqb c "/".

Fixpoint string_forallb (p : ascii → bool) (s : string) : bool :=
  match s with
  | "" => true
  | String c t => p c && string_forallb p t
  end.

Fixpoint string_rev (s : string) : string :=
  match s with
  | "" => ""
  | String c t => string_rev t +:+ String c ""
  end.

(** [s.startswith("/")] and [s.endswith("/")]. *)
Definition startswith_sep (s : string) : bool :=
  match s with String c _ => is_slash c | "" => false end.

Fixpoint endswith_sep (s : string) : bool :=
  match s with
  | "" => false
  | String c "" => is_slash c
  | String _ t => endswith_sep t
  end.

(** [posixpath.join(a, b)]:
<<
    if b.startswith(sep):            path = b
    elif not path or path.endswith(sep): path += b
    else:                            path += sep + b
>> *)
Definition path_join (a b : string) : string :=
  if startswith_sep b then b
  else if bool_decide (a = "") || endswith_sep a then a +:+ b
  else a +:+ "/" +:+ b.

(** [s.split("/")]: the text between the slashes; never empty. *)
Fixpoint split_slash (s : string) : list string :=
  match s with
  | "" => [""]
  | String c t =>
      if is_slash c then "" :: split_slash t
      else match split_slash t with
           | x :: xs => String c x :: xs
           | [] => [String c ""]
           end
  end.

(** [s.lstrip("{}")], [s.rstrip("{}")] and [s.strip("{}")]. *)
Fixpoint lstrip_braces (s : string) : string :=
  match s with
  | String c t => if is_brace c then lstrip_braces t else s
  | "" => ""
  end.

Definition rstrip_braces (s : string) : string :=
  string_rev (lstrip_braces (string_rev s)).

Definition strip_braces (s : string) : string :=
  rstrip_braces (lstrip_braces s).


(** *** [str.format] with keyword arguments

    The parser below follows CPython's [Objects/stringlib/unicode_format.h]:
    [MarkupIterator_next] cuts the format string into literal text and
    replacement fields, [parse_field] cuts a field into name, conversion and
    format spec, [get_field_object] looks the name up.  No positional argument
    is ever passed by the modelled code. *)

(** A replacement field as [parse_field] delivers it. *)
Record field : Type := Field {
  field_name : string;
  conversion : option ascii;
  format_spec : string;
}.

(** The literal text up to the first brace, then that brace and what follows
    it (if there is one). *)
Fixpoint scan_literal (s : string) : string * option (ascii * string) :=
  match s with
  | "" => ("", None)
  | String c t =>
      if is_brace c then ("", Some (c, t))
      else let '(l, r) := scan_literal t in (String c l, r)
  end.

(** The field name: up to ["}"], [":"] or ["!"].  A ["["] skips ahead to the
    next ["]"] (flag [skipping]); a ["{"] is refused.  Returns the name, the
    terminator and what follows it. *)
Fixpoint scan_field_name (skipping : bool) (s : string)
    : result (string * ascii * string) :=
  match s with
  | "" => Raised (ValueError "expected '}' before end of string")
  | String c t =>
      if skipping then
        '(n, d, r) ← scan_field_name (negb (Ascii.eqb c "]")) t;
        Returned (String c n, d, r)
      else if is_open c then
        Raised (ValueError "unexpected '{' in field name")
      else if is_close c || Ascii.eqb c ":" || Ascii.eqb c "!" then
        Returned ("", c, t)
      else
        '(n, d, r) ← scan_field_name (Ascii.eqb c "[") t;
        Returned (String c n, d, r)
  end.

(** The format spec: up to the ["}"] that closes the field, counting nested
    braces ([depth] is the number of fields still open, minus one). *)
Fixpoint scan_format_spec (depth : nat) (s : string) : result (string * string) :=
  match s with
  | "" => Raised (ValueError "unmatched '{' in format spec")
  | String c t =>
      if is_close c then
        match depth with
        | O => Returned ("", t)
        | S d => '(sp, r) ← scan_format_spec d t; Returned (String c sp, r)
        end
      else
        '(sp, r) ← scan_format_spec (if is_open c then S depth else depth) t;
        Returned (String c sp, r)
  end.

(** [parse_field]: the text after the opening brace of a field. *)
Definition parse_field (s : string) : result (field * string) :=
  '(name, d, r) ← scan_field_name false s;
  if Ascii.eqb d "!" then
    match r with
    | "" => Raised (ValueError "end of string while looking for conversion specifier")
    | String cv r1 =>
        match r1 with
        | "" =>
            '(sp, r2) ← scan_format_spec 0 r1;
            Returned (Field name (Some cv) sp, r2)
        | String c r2 =>
            if is_close c then Returned (Field name (Some cv) "", r2)
            else if Ascii.eqb c ":" then
              '(sp, r3) ← scan_format_spec 0 r2;
              Returned (Field name (Some cv) sp, r3)
            else Raised (ValueError "expected ':' after conversion specifier")
        end
    end
  else if Ascii.eqb d ":" then
    '(sp, r1) ← scan_format_spec 0 r;
    Returned (Field name None sp, r1)
  else Returned (Field name None "", r).

(** [MarkupIterator_next]: [None] at the end of the string, otherwise the next
    literal text, the field that follows it (if any) and the remaining
    text. *)
Definition markup_next (s : string)
    : result (option (string * option field * string)) :=
  match s with
  | "" => Returned None
  | _ =>
      match scan_literal s with
      | (lit, None) => Returned (Some (lit, None, ""))
      | (lit, Some (c, t)) =>
          match t with
          | "" =>
              if is_close c
              then Raised (ValueError "Single '}' encountered in format string")
              else Raised (ValueError "Single '{' encountered in format string")
          | String c' t' =>
              if Ascii.eqb c c' then
                Returned (Some (lit +:+ String c "", None, t'))
              else if is_close c then
                Raised (ValueError "Single '}' encountered in format string")
              else
                '(f, r) ← parse_field t;
                Returned (Some (lit, Some f, r))
          end
      end
  end.

(** [field_name_split]: the part of a field name before the first ["."] or
    ["["], and the rest. *)
Fixpoint split_first (name : string) : string * string :=
  match name with
  | "" => ("", "")
  | String c t =>
      if Ascii.eqb c "." || Ascii.eqb c "[" then ("", name)
      else let '(f, r) := split_first t in (String c f, r)
  end.

Definition digit_value (c : ascii) : option Z :=
  let n := Z.of_N (N_of_ascii c) in
  if (48 <=? n)%Z && (n <=? 57)%Z then Some (n - 48)%Z else None.

Definition PY_SSIZE_T_MAX : Z := 2 ^ 63 - 1.

(** [get_integer]: [Some n] for a run of decimal digits, [None] (C's [-1])
    for anything else, including the empty string. *)
Fixpoint get_integer_from (acc : Z) (s : string) : result (option Z) :=
  match s with
  | "" => Returned (Some acc)
  | String c t =>
      match digit_value c with
      | None => Returned None
      | Some d =>
          if (acc >? (PY_SSIZE_T_MAX - d) / 10)%Z
          then Raised (ValueError "Too many decimal digits in format string")
          else get_integer_from (acc * 10 + d) t
      end
  end.

Definition get_integer (s : string) : result (option Z) :=
  match s with
  | "" => Returned None
  | _ => get_integer_from 0 s
  end.

Section Format.

(** What Python does with a field once its first name has been found among
    the keyword arguments: attribute and index access along the rest of the
    field name, the conversion, and [__format__] with the format spec (itself
    expanded against the keyword arguments when it contains fields).  This is
    the object protocol, which is not modelled: [render] stands for it, and
    only the plain case is fixed, by [Hypothesis render_plain] where it is
    needed. *)
Variable render : kwargs → string → string → option ascii → string → result string.

(** [get_field_object] followed by [render_field].  An empty or numeric
    first name is an index into the positional arguments, of which there are
    none ([IndexError]; its text is the one of Python 3.7, later versions
    name the index). *)
Definition format_field (kw : kwargs) (f : field) : result string :=
  let '(first, rest) := split_first (field_name f) in
  idx ← get_integer first;
  if bool_decide (first = "") || bool_decide (idx ≠ None) then
    Raised (IndexError "tuple index out of range")
  else
    match kw !! first with
    | None => Raised (KeyError first)
    | Some v => render kw v rest (conversion f) (format_spec f)
    end.

(** [build_string]: pieces are rendered from left to right, so the first
    failure, of the parser or of a field, is the one that is raised.  Every
    step consumes a character: [S (length s)] steps are enough. *)
Fixpoint format_loop (fuel : nat) (kw : kwargs) (s : string) : result string :=
  match fuel with
  | O => Returned ""
  | S fuel' =>
      piece ← markup_next s;
      match piece with
      | None => Returned ""
      | Some (lit, fld, rest) =>
          out ← match fld with
                | None => Returned ""
                | Some f => format_field kw f
                end;
          tail ← format_loop fuel' kw rest;
          Returned (lit +:+ out +:+ tail)
      end
  end.

Definition str_format (s : string) (kw : kwargs) : result string :=
  format_loop (S (String.length s)) kw s.

End Format.

(** A stand-in for the object protocol that renders the plain case and
    refuses everything else.  It is used to run the model on examples. *)
Definition render_plain_only
    (kw : kwargs) (v rest : string) (cv : option ascii) (spec : string)
    : result string :=
  match rest, cv, spec with
  | "", None, "" => Returned v
  | _, _, _ => Raised (OtherError "object protocol")
  end.

End Py.
Export Py.

(** ** Path templates *)

Module Template.

(** *** The regular expression [([^{]|^){([^}]+)}]

    Python's [re] is a backtracking matcher; the three pieces below follow the
    pattern from right to left. *)

(** [[^}]+]: the longest run of characters other than ["}"], and what follows
    it.  Whatever follows the run starts with ["}"] or is empty, so a shorter
    run can never be followed by ["}"] and backtracking into the run is
    useless. *)
Fixpoint span_key (s : string) : string * string :=
  match s with
  | String c t =>
      if is_close c then ("", s)
      else let '(k, r) := span_key t in (String c k, r)
  | "" => ("", "")
  end.

(** [{([^}]+)}] anchored at the head of [s]: group 2 and the text after the
    match. *)
Definition match_braces (s : string) : option (string * string) :=
  match s with
  | String c t =>
      if is_open c then
        match span_key t with
        | (String k0 k, String c' r) =>
            if is_close c' then Some (String k0 k, r) else None
        | _ => None
        end
      else None
  | "" => None
  end.

(** One attempt of the whole pattern at one start position.  [bos] tells
    whether that position is the beginning of the string, where [^] matches.
    The alternation is ordered: [[^{]] is tried first and consumes one
    character, [^] is tried second and consumes none. *)
Definition match_at (bos : bool) (s : string) : option (string * string) :=
  let caret := if bos then match_braces s else None in
  match s with
  | String c t =>
      if is_open c then caret
      else match match_braces t with
           | Some m => Some m
           | None => caret
           end
  | "" => caret
  end.

(** [re.search]: the match at the leftmost start position that has one. *)
Fixpoint re_search (bos : bool) (s : string) : option (string * string) :=
  match match_at bos s with
  | Some m => Some m
  | None =>
      match s with
      | String _ t => re_search false t
      | "" => None
      end
  end.

(** [re.finditer]: successive non-overlapping matches; the search resumes
    where the previous match ended, which is never the beginning of the
    string.  A match consumes at least three characters, so a budget of
    [length s] searches is never exhausted (lemma [finditer_enough]). *)
Fixpoint finditer (fuel : nat) (bos : bool) (s : string) : list string :=
  match fuel with
  | O => []
  | S fuel' =>
      match re_search bos s with
      | Some (key, rest) => key :: finditer fuel' false rest
      | None => []
      end
  end.

(** [contains_format(string)]:
    [re.search("([^{]|^){[^}]+}", string) is not None]. *)
Definition contains_format (s : string) : bool :=
  match re_search true s with
  | Some _ => true
  | None => false
  end.

(** [format_keys(string)]:
    [[x.group(2) for x in re.finditer("([^{]|^){([^}]+)}", string)]]. *)
Definition format_keys (s : string) : list string :=
  finditer (String.length s) true s.

Section Resolver.

Variable render : kwargs → string → string → option ascii → string → result string.

(** [nbgrader.utils.full_split], which cuts a path into its components; it is
    not part of this repository and the resolver does not depend on how it
    cuts. *)
Variable full_split : string → list string.

(** The dict that [maybe_format] passes to [str.format]: every key found in
    the string and missing from [values] is bound to itself in braces
    ([f"{{{x}}}"]); then come the [values], which take precedence. *)
Definition format_defaults (formats : list string) (values : kwargs) : kwargs :=
  list_to_map
    ((λ x, (x, "{" +:+ x +:+ "}")) <$>
       filter (λ x, values !! x = None) formats).

(** [maybe_format(string, **values)]:
<<
    try:
        formats = format_keys(string)
        return string.format( **{ **{x: f"{{{x}}}" for x in formats if x not in values},
                                 **{x: y for x, y in values.items()} })
    except KeyError:
        return string
>> *)
Definition maybe_format (s : string) (values : kwargs) : result string :=
  let formats := format_keys s in
  match str_format render s (values ∪ format_defaults formats values) with
  | Raised (KeyError _) => Returned s
  | r => r
  end.

(** The call [maybe_format(part, **kwargs)]: Python refuses a keyword that
    also names the positional parameter. *)
Definition call_maybe_format (part : string) (kw : kwargs) : result string :=
  if bool_decide (is_Some (kw !! "string")) then
    Raised (TypeError "maybe_format() got multiple values for argument 'string'")
  else maybe_format part kw.

(** One turn of the loop of [get_directory_structure]:
<<
    the_part = maybe_format(part, **kwargs)
    if (len(full_structure) > 0 and not contains_format(the_part)
            and not contains_format(full_structure[-1])):
        full_structure[-1] = os.path.join(full_structure[-1], the_part)
    else:
        full_structure.append(the_part)
>> *)
Definition collapse_step (kw : kwargs) (full_structure : list string)
    (part : string) : result (list string) :=
  the_part ← call_maybe_format part kw;
  match last full_structure with
  | Some prev =>
      if negb (contains_format the_part) && negb (contains_format prev) then
        Returned (<[pred (List.length full_structure) := path_join prev the_part]>
                    full_structure)
      else Returned (full_structure ++ [the_part])
  | None => Returned (full_structure ++ [the_part])
  end.

Fixpoint collapse_loop (kw : kwargs) (full_structure : list string)
    (structure : list string) : result (list string) :=
  match structure with
  | [] => Returned full_structure
  | part :: parts =>
      full_structure' ← collapse_step kw full_structure part;
      collapse_loop kw full_structure' parts
  end.

(** [get_directory_structure(directory_structure, **kwargs)]. *)
Definition get_directory_structure (directory_structure : string)
    (kw : kwargs) : result (list string) :=
  collapse_loop kw [] (full_split directory_structure).

End Resolver.

(** *** Segments of the usual shape

    The directory structures of nbgrader are built from literal text and
    placeholders such as [{course_id}] and [{assignment_id}].  A [segment]
    writes such a string down piece by piece: the text before the first
    placeholder, then every placeholder with the text that follows it. *)

Record segment : Type := Segment {
  lead : string;
  holes : list (string * string);
}.

Fixpoint holes_text (hs : list (string * string)) : string :=
  match hs with
  | [] => ""
  | (n, l) :: hs' => String "{" (n +:+ String "}" (l +:+ holes_text hs'))
  end.

(** The string that a segment stands for. *)
Definition text (t : segment) : string := lead t +:+ holes_text (holes t).

(** A placeholder whose name is bound is replaced by the value, the others
    stay as they are. *)
Definition subst (values : kwargs) (n : string) : string :=
  default (String "{" (n +:+ "}")) (values !! n).

Fixpoint holes_fill (values : kwargs) (hs : list (string * string)) : string :=
  match hs with
  | [] => ""
  | (n, l) :: hs' => subst values n +:+ l +:+ holes_fill values hs'
  end.

Definition fill (values : kwargs) (t : segment) : string :=
  lead t +:+ holes_fill values (holes t).

Definition no_open (s : string) : bool :=
  string_forallb (λ c, negb (is_open c)) s.
Definition no_close (s : string) : bool :=
  string_forallb (λ c, negb (is_close c)) s.
Definition brace_free (s : string) : bool :=
  string_forallb (λ c, negb (is_brace c)) s.

(** The characters that mean something to [str.format] inside a field. *)
Definition is_special (c : ascii) : bool :=
  is_brace c || Ascii.eqb c "." || Ascii.eqb c "[" ||
  Ascii.eqb c "!" || Ascii.eqb c ":".

(** A plain name: not empty, no special character, and not a number (a
    number would be a positional index). *)
Definition plain_name (n : string) : bool :=
  negb (bool_decide (n = "")) &&
  string_forallb (λ c, negb (is_special c)) n &&
  match get_integer n with Returned None => true | _ => false end.

(** Two placeholders are never adjacent: the text between them is not
    empty. *)
Fixpoint separated (hs : list (string * string)) : bool :=
  match hs with
  | [] => true
  | (_, l) :: hs' =>
      match hs' with
      | [] => true
      | _ :: _ => negb (bool_decide (l = "")) && separated hs'
      end
  end.

Definition well_formed (t : segment) : bool :=
  brace_free (lead t) &&
  forallb (λ h, plain_name h.1 && brace_free h.2) (holes t) &&
  separated (holes t).

(** *** Collapsed structures

    Every element of the list that [get_directory_structure] returns stands
    for a group of consecutive parts: it is the parts of the group joined
    into one path. *)
Definition join_group (g : list string) : string :=
  match g with
  | [] => ""
  | x :: xs => foldl path_join x xs
  end.

(** No two neighbours of a list are both free of placeholders. *)
Definition no_adjacent_literals (l : list string) : Prop :=
  ∀ i x y, l !! i = Some x → l !! S i = Some y →
    contains_format x || contains_format y = true.

(** A group that was joined into one element holds no placeholder, unless it
    is a single part. *)
Definition good_group (g : list string) : Prop :=
  g ≠ [] ∧ ∀ p, p ∈ g → contains_format p = true → g = [p].

End Template.

(** ** The filesystem *)

Module Fs.

(** A filesystem is a tree of directories and files; a process sees it from
    its working directory.  There are no symbolic links. *)
#[warnings="-register-all"]
Inductive node : Type :=
  | File
  | Dir (entries : list (string * node)).

Record filesystem : Type := Filesystem {
  fs_root : node;
  fs_cwd : list string;
}.

Definition is_dir_node (n : node) : bool :=
  match n with Dir _ => true | File => false end.

Fixpoint assoc_find (name : string) (es : list (string * node)) : option node :=
  match es with
  | [] => None
  | (x, n) :: es' => if bool_decide (x = name) then Some n else assoc_find name es'
  end.

Definition child (n : node) (name : string) : option node :=
  match n with
  | Dir es => assoc_find name es
  | File => None
  end.

(** The node reached from [n] along the names [pos]. *)
Fixpoint node_at (n : node) (pos : list string) : option node :=
  match pos with
  | [] => Some n
  | x :: xs => child n x ≫= λ m, node_at m xs
  end.

(** One component of a path, looked up from the directory at [pos]: the
    empty component and ["."] stay there, [".."] moves up, a name moves down.
    A component can only be looked up in a directory. *)
Definition walk (fs : filesystem) (pos : list string) (c : string)
    : option (list string) :=
  match node_at (fs_root fs) pos with
  | Some (Dir _) =>
      if bool_decide (c = "") || bool_decide (c = ".") then Some pos
      else if bool_decide (c = "..") then Some (removelast pos)
      else match node_at (fs_root fs) (pos ++ [c]) with
           | Some _ => Some (pos ++ [c])
           | None => None
           end
  | _ => None
  end.

Fixpoint walk_all (fs : filesystem) (pos : list string) (cs : list string)
    : option (list string) :=
  match cs with
  | [] => Some pos
  | c :: cs' => walk fs pos c ≫= λ pos', walk_all fs pos' cs'
  end.

(** Path resolution, as [stat(2)] does it: the empty path names nothing, an
    absolute path starts at the root and a relative one at the working
    directory. *)
Definition resolve (fs : filesystem) (path : string) : option node :=
  if bool_decide (path = "") then None
  else
    let start := if startswith_sep path then [] else fs_cwd fs in
    walk_all fs start (split_slash path) ≫= node_at (fs_root fs).

(** [os.path.exists], [os.path.isdir] and [os.listdir]. *)
Definition path_exists (fs : filesystem) (path : string) : bool :=
  match resolve fs path with Some _ => true | None => false end.

Definition isdir (fs : filesystem) (path : string) : bool :=
  match resolve fs path with Some n => is_dir_node n | None => false end.

Definition listdir (fs : filesystem) (path : string) : result (list string) :=
  match resolve fs path with
  | Some (Dir es) => Returned (fst <$> es)
  | Some File => Raised (NotADirectoryError path)
  | None => Raised (FileNotFoundError path)
  end.

End Fs.

(** ** The directory scanner *)

Module Scan.
Import Template Fs.

(** One element of the list that [get_files] returns: the dict with the keys
    ['files'], ['root'] and ['details']. *)
Record entry : Type := Entry {
  files : list string;
  root : string;
  details : kwargs;
}.

(** The call [self.get_files(new_root, structure[1:], **kwargs)]: Python
    refuses a keyword that also names a positional parameter. *)
Definition clashes (kw : kwargs) : bool :=
  bool_decide (is_Some (kw !! "self")) ||
  bool_decide (is_Some (kw !! "root")) ||
  bool_decide (is_Some (kw !! "structure")).

(** [get_files(root, structure, **kwargs)] for a [root] that is a path:
<<
    if len(structure) == 0:
        if os.path.isdir(root):
            files = os.listdir(root)
            return [{"files": [os.path.join(root, f) for f in files],
                     "root": root, "details": kwargs}]
        else:
            return []
    if not contains_format(structure[0]):
        root = os.path.join(root, structure[0])
        return self.get_files(root, structure[1:], **kwargs)
    files = []
    if os.path.exists(root):
        for filename in os.listdir(root):
            new_root = os.path.join(root, filename)
            detail_name = structure[0].strip("{}")
            kwargs[detail_name] = filename
            if os.path.isdir(new_root):
                files.extend(self.get_files(new_root, structure[1:], **kwargs))
    else:
        return []
    return files
>> *)
Fixpoint get_files_path (fs : filesystem) (root : string)
    (structure : list string) (kw : kwargs) : result (list entry) :=
  match structure with
  | [] =>
      if isdir fs root then
        names ← listdir fs root;
        Returned [Entry (path_join root <$> names) root kw]
      else Returned []
  | seg :: structure' =>
      if negb (contains_format seg) then
        get_files_path fs (path_join root seg) structure' kw
      else if path_exists fs root then
        names ← listdir fs root;
        (fix each (names : list string) (kw : kwargs) : result (list entry) :=
           match names with
           | [] => Returned []
           | filename :: names' =>
               let new_root := path_join root filename in
               let detail_name := strip_braces seg in
               let kw := <[detail_name := filename]> kw in
               found ←
                 (if isdir fs new_root then
                    if clashes kw then
                      Raised (TypeError "get_files() got multiple values for argument")
                    else get_files_path fs new_root structure' kw
                  else Returned []);
               more ← each names' kw;
               Returned (found ++ more)
           end) names kw
      else Returned []
  end.

(** The first argument of [get_files] is a path or a list of segments. *)
Inductive root_arg : Type :=
  | RootPath (path : string)
  | RootList (segments : list string).

(** [get_files(root, structure=None, **kwargs)]:
<<
    if structure is None:
        structure = []
    if isinstance(root, list):
        return self.get_files(root[0], root[1:] + structure, **kwargs)
>> *)
Definition get_files (fs : filesystem) (root : root_arg)
    (structure : list string) (kw : kwargs) : result (list entry) :=
  match root with
  | RootPath path => get_files_path fs path structure kw
  | RootList [] => Raised (IndexError "list index out of range")
  | RootList (r :: rs) => get_files_path fs r (rs ++ structure) kw
  end.

(** The literal segments that [get_files] joins to its root before it meets
    the first placeholder are relative paths. *)
Fixpoint leading_relative (structure : list string) : bool :=
  match structure with
  | [] => true
  | seg :: structure' =>
      if contains_format seg then true
      else negb (startswith_sep seg) && leading_relative structure'
  end.

End Scan.

(** ** Requests to the exchange service *)

Module Api.

Inductive verb : Type := GET | POST | DELETE.

(** A call of [requests.get], [requests.post] or [requests.delete].  [extra]
    stands for the positional and keyword arguments that [api_request] hands
    on unchanged. *)
Record request : Type := Request {
  req_verb : verb;
  req_url : string;
  req_headers : kwargs;
  req_cookies : kwargs;
  req_extra : list (string * string);
}.

(** What a call of [api_request] does besides returning: it writes to the log
    and it talks to the network. *)
Inductive event : Type :=
  | LogDebug (msg : string)
  | LogInfo (msg : string)
  | Http (r : request).

(** A computation that returns or raises, and leaves a trace of events. *)
Definition traced (A : Type) : Type := result A * list event.

Definition emit (e : event) : traced unit := (Returned tt, [e]).

Definition and_then {A B : Type} (m : traced A) (k : A → traced B) : traced B :=
  match m with
  | (Returned a, t) => let '(r, t') := k a in (r, t ++ t')
  | (Raised e, t) => (Raised e, t)
  end.

Section Service.

(** The response type of the [requests] library, the network behind it, the
    printed form of a [functools.partial] object and [urllib.parse.urljoin]
    are outside the repository. *)
Variable response : Type.
Variable send : request → result response.
Variable repr_partial : request → string.
Variable urljoin : string → string → string.

(** The plugin's configuration and environment: [base_service_url] and the
    variable [NAAS_JWT]. *)
Variable base_service_url : string.
Variable NAAS_JWT : option string.

(** [service_url()]:
<<
    this_url = urljoin(self.base_service_url, "/services/nbexchange/")
    self.log.debug(f"service_url: {this_url}")
    return this_url
>> *)
Definition service_url : traced string :=
  let this_url := urljoin base_service_url "/services/nbexchange/" in
  and_then (emit (LogDebug ("service_url: " +:+ this_url))) (λ _,
  (Returned this_url, [])).

Definition perform (r : request) : traced response := (send r, [Http r]).

(** [api_request(path, method="GET", *args, **kwargs)]:
<<
    jwt_token = os.environ.get("NAAS_JWT")
    cookies = dict()
    headers = dict()
    if jwt_token:
        cookies["noteable_auth"] = jwt_token
    url = self.service_url() + path
    self.log.info(f"Exchange.api_request calling exchange with url {url}")
    if method == "GET":
        get_req = partial(requests.get, url, headers=headers, cookies=cookies)
        self.log.info(f"Exchange.api_request GET returning {get_req}")
        return get_req( *args, **kwargs)
    elif method == "POST":
        post_req = partial(requests.post, url, headers=headers, cookies=cookies)
        return post_req( *args, **kwargs)
    elif method == "DELETE":
        delete_req = partial(requests.delete, url, headers=headers, cookies=cookies)
        return delete_req( *args, **kwargs)
    else:
        raise NotImplementedError(f"HTTP Method {method} is not implemented")
>> *)
Definition api_request (path : string) (method : string)
    (extra : list (string * string)) : traced response :=
  let jwt_token := NAAS_JWT in
  let cookies : kwargs := ∅ in
  let headers : kwargs := ∅ in
  let cookies :=
    match jwt_token with
    | Some tok => if bool_decide (tok = "") then cookies
                  else <["noteable_auth" := tok]> cookies
    | None => cookies
    end in
  and_then service_url (λ base,
  let url := base +:+ path in
  and_then (emit (LogInfo ("Exchange.api_request calling exchange with url " +:+ url))) (λ _,
  if bool_decide (method = "GET") then
    let get_req := Request GET url headers cookies extra in
    and_then (emit (LogInfo ("Exchange.api_request GET returning " +:+ repr_partial get_req))) (λ _,
    perform get_req)
  else if bool_decide (method = "POST") then
    perform (Request POST url headers cookies extra)
  else if bool_decide (method = "DELETE") then
    perform (Request DELETE url headers cookies extra)
  else
    (Raised (NotImplementedError ("HTTP Method " +:+ method +:+ " is not implemented")), []))).

End Service.

(** The requests among the events of a trace. *)
Definition http_calls (t : list event) : list request :=
  omap (λ e, match e with Http r => Some r | _ => None end) t.

End Api.

(** ** The transfer operations

    [ExchangeCollect], [ExchangeSubmit] and [ExchangeFetchAssignment] live in
    sibling modules of the plugin package; what follows is their behaviour as
    the design document of the plugin describes it. *)

Module Transfer.

(** Modelled from the spec: the instants carried by remote entries and by the
    local [timestamp.txt] (the plugin's collect, submit and fetch modules are
    missing); only their order matters. *)
Definition instant : Type := Z.

(** Modelled from the spec: a directory of the local layout, its files by
    name (the filesystem code of the transfer modules is missing). *)
Abbreviation directory := (gmap string string).

(** Modelled from the spec: the error kinds of section 7 (the transfer
    modules that raise them are missing). *)
Inductive error : Type :=
  | ConfigurationError (msg : string)
  | NotFoundError (path : string) (suggestion : option string)
  | ConflictError (dest : string)
  | ValidationError (assignment_id : string) (missing extra : gset string)
  | RemoteError (note : string)
  | TransportError.

(** Modelled from the spec: the text of the fetch conflict (the fetch module
    is missing; the wording is the one its test expects). *)
Definition conflict_message (dest : string) : string :=
  "You already have notebook documents in directory: " +:+ dest +:+
  ". Please remove them before fetching again".

(** Modelled from the spec: "the already have notebook documents error" is
    an error whose text contains these words (the fetch module is missing);
    [contains_text needle s] tells whether [needle] occurs in [s]. *)
Fixpoint is_prefix (p s : string) : bool :=
  match p, s with
  | "", _ => true
  | String a p', String b s' => Ascii.eqb a b && is_prefix p' s'
  | _, "" => false
  end.

(** Modelled from the spec: see [is_prefix]. *)
Fixpoint contains_text (needle s : string) : bool :=
  is_prefix needle s ||
  match s with
  | "" => false
  | String _ t => contains_text needle t
  end.

(** Modelled from the spec: a notebook file is a file with the extension
    [.ipynb], and its notebook id is its stem (the validator of the submit
    module is missing). *)
Fixpoint stem (name : string) : option string :=
  match name with
  | "" => None
  | String c t =>
      if bool_decide (name = ".ipynb") then Some ""
      else String c <$> stem t
  end.

(** Modelled from the spec: the notebook files of section 4.3 (the validator
    of the submit module is missing). *)
Definition is_notebook (name : string) : bool :=
  match stem name with Some _ => true | None => false end.

(** Modelled from the spec: "the destination already contains one or more
    notebook files" (the fetch module is missing). *)
Definition has_notebooks (d : directory) : bool :=
  bool_decide (Exists (λ name, is_notebook name = true) (elements (dom d))).

(** Modelled from the spec: the local notebook ids of section 4.3, the stems
    of the notebook files of a directory (the validator of the submit module
    is missing). *)
Definition notebook_ids (d : directory) : gset string :=
  list_to_set (omap stem (elements (dom d))).

End Transfer.

(** *** Collect *)

Module Collect.
Import Transfer.

(** Modelled from the spec: one element of the answer of the [collections]
    endpoint (the collect module is missing). *)
Record submission : Type := Submission {
  sub_path : string;
  sub_timestamp : instant;
}.

(** Modelled from the spec: a local copy of a submission, a directory and its
    optional [timestamp.txt] (the collect module is missing). *)
Record local_copy : Type := LocalCopy {
  contents : directory;
  sidecar : option instant;
}.

(** Modelled from the spec: what collect does on the network (the collect
    module is missing): the archive of [path] is fetched and extracted into
    the directory [dest]. *)
Inductive event : Type :=
  | Download (path dest : string).

Section Collect.

(** The local target directory of a submission and the archive that the
    [collection] endpoint serves for a path. *)
Variable target : submission → string.
Variable archive : string → directory.
Variable update : bool.

(** Modelled from the spec: steps (3) and (4) of collect (the collect module
    is missing).  Without a local copy the submission is downloaded; with
    updates disabled a local copy is never downloaded again; with updates
    enabled it is downloaded again when the remote timestamp is strictly
    greater than the recorded one (a copy without a record has nothing to
    compare against and is downloaded again). *)
Definition wants_download (s : submission) (local : option local_copy) : bool :=
  match local with
  | None => true
  | Some copy =>
      if update then
        match sidecar copy with
        | Some t => bool_decide (t < sub_timestamp s)%Z
        | None => true
        end
      else false
  end.

(** Modelled from the spec: step (5) of collect (the collect module is
    missing): the target holds exactly the extracted archive and the new
    timestamp record. *)
Definition extracted (s : submission) : local_copy :=
  LocalCopy (archive (sub_path s)) (Some (sub_timestamp s)).

(** Modelled from the spec: collect for one entry of the list (the collect
    module is missing). *)
Definition collect_entry (st : gmap string local_copy * list event)
    (s : submission) : gmap string local_copy * list event :=
  let '(store, trace) := st in
  if wants_download s (store !! target s) then
    (<[target s := extracted s]> store,
     trace ++ [Download (sub_path s) (target s)])
  else (store, trace).

(** Modelled from the spec: collect walks the list of step (1) in order (the
    collect module is missing). *)
Definition collect (store : gmap string local_copy) (subs : list submission)
    : gmap string local_copy * list event :=
  foldl collect_entry (store, []) subs.

End Collect.

End Collect.

(** *** Submit *)

Module Submit.
Import Transfer.

(** Modelled from the spec: the data model of section 3 (the submit module is
    missing). *)
Inductive status : Type := released | fetched | submitted | autograded | source.

#[global] Instance status_eq_dec : EqDecision status.
Proof. solve_decision. Defined.

(** Modelled from the spec: [NotebookRef] of section 3 (the submit module is
    missing). *)
Record notebook_ref : Type := NotebookRef {
  notebook_id : string;
  has_feedback : bool;
  feedback_updated : bool;
  feedback_timestamp : option instant;
}.

(** Modelled from the spec: [RemoteManifestEntry] of section 3 (the submit
    module is missing). *)
Record manifest_entry : Type := ManifestEntry {
  assignment_id : string;
  course_id : string;
  student_id : string;
  entry_status : status;
  entry_path : string;
  notebooks : list notebook_ref;
  timestamp : instant;
}.

(** Modelled from the spec: [status == released] (the submit module is
    missing). *)
Definition is_released (e : manifest_entry) : bool :=
  bool_decide (entry_status e = released).

(** Modelled from the spec: one turn of the selection of step (2) of submit
    (the submit module is missing): a released entry replaces the best one so
    far only when it is strictly newer, so that the first entry met at the
    maximum stays. *)
Definition newer (best : option manifest_entry) (e : manifest_entry)
    : option manifest_entry :=
  if is_released e then
    match best with
    | None => Some e
    | Some b => if bool_decide (timestamp b < timestamp e)%Z then Some e else Some b
    end
  else best.

(** Modelled from the spec: step (2) of submit (the submit module is
    missing): among the released entries the one with the maximum timestamp,
    the first one met at that maximum. *)
Definition select_release (entries : list manifest_entry) : option manifest_entry :=
  foldl newer None entries.

(** Modelled from the spec: the contract of the manifest validator of section
    4.3 (the submit module is missing). *)
Inductive outcome : Type :=
  | Match
  | Mismatch (missing extra : gset string).

(** Modelled from the spec: [validate] of section 4.3 (the submit module is
    missing): [missing] are the ids of the manifest that are not local,
    [extra] the local ids that are not in the manifest. *)
Definition validate (local manifest : gset string) : outcome :=
  if bool_decide (local = manifest) then Match
  else Mismatch (manifest ∖ local) (local ∖ manifest).

(** Modelled from the spec: the notebook ids that a release declares (the
    submit module is missing). *)
Definition manifest_ids (e : manifest_entry) : gset string :=
  list_to_set (notebook_id <$> notebooks e).

(** Modelled from the spec: what submit does besides ending (the submit
    module is missing): the warning of section 4.3 and the POST of step (5),
    with the name of the multipart field and the file name. *)
Inductive event : Type :=
  | Warning (missing extra : gset string)
  | Post (field filename : string) (archive : directory).

(** Modelled from the spec: the answer of the submission endpoint (the submit
    module is missing). *)
Record answer : Type := Answer {
  success : bool;
  note : string;
}.

Section Submit.

Variable strict : bool.
Variable the_assignment : string.
Variable now : string.
Variable remote : directory → answer.

(** Modelled from the spec: steps (3) to (6) of submit for a local directory
    and the selected release (the submit module is missing).  The result is
    the outcome of the operation and what it did on the way. *)
Definition submit_checked (local : directory) (release : option manifest_entry)
    : (error + unit) * list event :=
  let verdict :=
    match release with
    | Some r => validate (notebook_ids local) (manifest_ids r)
    | None => Match
    end in
  let post (warnings : list event) :=
    let packed := <["timestamp.txt" := now]> local in
    let reply := remote packed in
    (if success reply then inr tt else inl (RemoteError (note reply)),
     warnings ++ [Post "assignment" "assignment.tar.gz" packed]) in
  match verdict with
  | Match => post []
  | Mismatch missing extra =>
      if strict then (inl (ValidationError the_assignment missing extra), [])
      else post [Warning missing extra]
  end.

(** Modelled from the spec: submit, steps (1) to (6) (the submit module is
    missing). *)
Definition submit (local : option directory) (entries : list manifest_entry)
    : (error + unit) * list event :=
  match local with
  | None => (inl (NotFoundError the_assignment None), [])
  | Some d => submit_checked d (select_release entries)
  end.

End Submit.

(** Modelled from the spec: what step (2) of submit asks of the selection
    (the submit module is missing).  After the entries [seen]: nothing
    when no entry of [seen] is released, otherwise a released entry that is
    strictly newer than the released entries before it and at least as new as
    those after it. *)
Definition selected (seen : list manifest_entry) (best : option manifest_entry)
    : Prop :=
  match best with
  | None => ∀ e, e ∈ seen → is_released e = false
  | Some r =>
      ∃ before after,
        seen = before ++ r :: after ∧ is_released r = true ∧
        (∀ e, e ∈ before → is_released e = true → (timestamp e < timestamp r)%Z) ∧
        (∀ e, e ∈ after → is_released e = true → (timestamp e ≤ timestamp r)%Z)
  end.

End Submit.

(** *** Fetch *)

Module Fetch.
Import Transfer.

(** Modelled from the spec: step (1) of fetch, the request for the archive
    of an assignment (the fetch module is missing). *)
Inductive event : Type :=
  | GetArchive (course assignment : string).

Section Fetch.

Variable course assignment : string.
Variable dest : string.
Variable archive : directory.

(** Modelled from the spec: fetch, steps (1) to (4) (the fetch module is
    missing).  The state is the local layout, a map from directories to their
    files; extraction adds the members of the archive to the destination and
    replaces files of the same name. *)
Definition fetch (store : gmap string directory)
    : (error + unit) * gmap string directory * list event :=
  let trace := [GetArchive course assignment] in
  match store !! dest with
  | Some d =>
      if has_notebooks d then (inl (ConflictError dest), store, trace)
      else (inr tt, <[dest := archive ∪ d]> store, trace)
  | None => (inr tt, <[dest := archive]> store, trace)
  end.

End Fetch.

End Fetch.

(** ** What a scan finds

    Notions in which the results of [get_files] are described. *)

Module Walk.
Import Template Fs Scan.

(** The names under which [get_files] records the directories that it finds
    for the placeholder segments of a structure, from left to right. *)
Definition detail_names (structure : list string) : list string :=
  strip_braces <$> filter (λ seg, contains_format seg = true) structure.

(** The path that a structure stands for once every placeholder segment is
    replaced by the name recorded for it in [details]: the literal segments
    and the recorded names are joined to the root from left to right. *)
Fixpoint instantiate (details : kwargs) (root : string)
    (structure : list string) : string :=
  match structure with
  | [] => root
  | seg :: structure' =>
      let name :=
        if contains_format seg then default "" (details !! strip_braces seg)
        else seg in
      instantiate details (path_join root name) structure'
  end.


(** What [get_files] writes down in the details of an entry. *)
Definition recorded (rt : string) (structure : list string) (kw : kwargs)
    (e : entry) : Prop :=
  (∀ n, n ∈ detail_names structure → is_Some (details e !! n)) ∧
  (∀ k, k ∉ detail_names structure → details e !! k = kw !! k) ∧
  (NoDup (detail_names structure) →
   root e = instantiate (details e) rt structure).

End Walk.

Module Match.
Import Template Fs Scan.

(** The directories that match a structure under a root: a literal segment
    is joined to the root, a placeholder segment stands for any directory
    listed under the root. *)
Fixpoint matches (fs : filesystem) (rt : string) (structure : list string)
    (path : string) : Prop :=
  match structure with
  | [] => isdir fs rt = true ∧ path = rt
  | seg :: structure' =>
      if contains_format seg then
        ∃ names filename,
          listdir fs rt = Returned names ∧ filename ∈ names ∧
          isdir fs (path_join rt filename) = true ∧
          matches fs (path_join rt filename) structure' path
      else matches fs (path_join rt seg) structure' path
  end.

End Match.

(** ** Grouping *)

Module Group.

Section Group.

(** The dicts that [group_by] takes are of any shape; [item_details] is the
    value of a dict under the key ['details'], when it has that key. *)
Variable item : Type.
Variable item_details : item → option kwargs.

(** [item["details"][key]], when [key in item.get("details", {})]. *)
Definition detail (key : string) (x : item) : option string :=
  item_details x ≫= λ details, details !! key.

(** [ordered[value].append(x)] on a [defaultdict(list)]: a value that is not
    yet a key becomes the last key, with an empty list.  A dict keeps its keys
    in the order in which they were inserted. *)
Fixpoint append_to (value : string) (x : item)
    (ordered : list (string * list item)) : list (string * list item) :=
  match ordered with
  | [] => [(value, [x])]
  | (v, xs) :: ordered' =>
      if bool_decide (v = value) then (v, xs ++ [x]) :: ordered'
      else (v, xs) :: append_to value x ordered'
  end.

(** [group_by(key, entries)]:
<<
    ordered = defaultdict(list)
    for item in entries:
        if key in item.get("details", {}):
            ordered[item["details"][key]].append(item)
    return ordered
>> *)
Definition group_by (key : string) (entries : list item)
    : list (string * list item) :=
  foldl (λ ordered x,
           match detail key x with
           | Some value => append_to value x ordered
           | None => ordered
           end) [] entries.

End Group.

(** The elements of a list in the order of their first occurrence. *)
Fixpoint first_seen (l : list string) : list string :=
  match l with
  | [] => []
  | x :: l' => x :: filter (λ y, y ≠ x) (first_seen l')
  end.

End Group.

(** ** The local directories *)

Module Layout.
Import Template Fs Scan.

(** One element of the lists that [get_local_assignments] returns: a dict
    with the keys ['details'] and ['files']. *)
Record found : Type := Found {
  found_details : kwargs;
  found_files : list string;
}.

(** [get_files(root)] for a [root] that is a list of dicts, as
    [get_local_assignments] calls it on the list that [get_assignment_dir]
    returns.  [root] is a list: [get_files] calls itself with [root[0]] for
    root and [root[1:]] for structure, both of them dicts where paths are
    expected.  With one dict, the structure is empty and
    [os.path.isdir(root)] is reached, which raises [TypeError] on a dict;
    with more, [contains_format(structure[0])] is reached, where [re.search]
    raises [TypeError] on a dict. *)
Definition get_files_of_entries (entries : list entry) : result (list entry) :=
  match entries with
  | [] => Raised (IndexError "list index out of range")
  | [_] =>
      Raised (TypeError
        "stat: path should be string, bytes, os.PathLike or integer, not dict")
  | _ :: _ :: _ => Raised (TypeError "expected string or bytes-like object")
  end.

Section Layout.

Variable render : kwargs → string → string → option ascii → string → result string.
Variable full_split : string → list string.
Variable fs : filesystem.

(** The configuration: [coursedir.root], [coursedir.directory_structure],
    the names of the directories of the steps of nbgrader, and the traits
    [assignment_dir] and [path_includes_course] of the plugin. *)
Variable coursedir_root : string.
Variable directory_structure : string.
Variable submitted_directory : string.
Variable feedback_directory : string.
Variable autograded_directory : string.
Variable release_directory : string.
Variable source_directory : string.
Variable assignment_dir : string.
Variable path_includes_course : bool.

(** [construct_course_dir(nbgrader_step, student_id, assignment_id)]:
<<
    structure = os.path.join(self.coursedir.root, self.coursedir.directory_structure)
    return os.path.join( *[ x.format(nbgrader_step=nbgrader_step,
                                     student_id=student_id,
                                     assignment_id=assignment_id)
                            for x in full_split(structure) ])
>>
    [os.path.join] needs one argument at least. *)
Definition construct_course_dir (nbgrader_step student_id assignment_id : string)
    : result string :=
  let structure := path_join coursedir_root directory_structure in
  parts ← mapM (λ x, str_format render x
                       {[ "nbgrader_step" := nbgrader_step;
                          "student_id" := student_id;
                          "assignment_id" := assignment_id ]})
               (full_split structure);
  match parts with
  | [] => Raised (TypeError "join() missing 1 required positional argument: 'a'")
  | a :: p => Returned (foldl path_join a p)
  end.

(** [construct_assignment_dir(assignment_id, course_id=None, subdir=None)]:
<<
    structure = self.assignment_dir
    if self.path_includes_course:
        if course_id is None:
            self.log.info(...)
            return
        structure = os.path.join(structure, course_id)
    structure = os.path.join(structure, assignment_id)
    if subdir is not None:
        structure = os.path.join(structure, subdir)
    return structure
>>
    The result is [None] when the course is needed and not given. *)
Definition construct_assignment_dir (assignment_id : string)
    (course_id subdir : option string) : option string :=
  let structure := assignment_dir in
  structure ←
    (if path_includes_course then
       match course_id with
       | None => None
       | Some course_id => Some (path_join structure course_id)
       end
     else Some structure);
  let structure := path_join structure assignment_id in
  let structure :=
    match subdir with
    | Some subdir => path_join structure subdir
    | None => structure
    end in
  Some structure.

(** [self.get_files(self.get_directory_structure(structure, **kwargs))], the
    last line of [get_course_dir] and of [get_assignment_dir]. *)
Definition scan (structure : string) (kw : kwargs) : result (list entry) :=
  out ← get_directory_structure render full_split structure kw;
  get_files fs (RootList out) [] ∅.

(** The keyword arguments of [get_course_dir]:
<<
    kwargs = {"nbgrader_step": nbgrader_step}
    if assignment_id is not None:
        kwargs["assignment_id"] = assignment_id
    if student_id is not None:
        kwargs["student_id"] = student_id
>> *)
Definition course_kwargs (nbgrader_step : string)
    (student_id assignment_id : option string) : kwargs :=
  let kw : kwargs := {[ "nbgrader_step" := nbgrader_step ]} in
  let kw := match assignment_id with
            | Some a => <["assignment_id" := a]> kw
            | None => kw
            end in
  match student_id with
  | Some s => <["student_id" := s]> kw
  | None => kw
  end.

(** [get_course_dir(nbgrader_step, student_id=None, assignment_id=None)]. *)
Definition get_course_dir (nbgrader_step : string)
    (student_id assignment_id : option string) : result (list entry) :=
  let structure := path_join coursedir_root directory_structure in
  scan structure (course_kwargs nbgrader_step student_id assignment_id).

(** The structure and the keyword arguments of [get_assignment_dir]:
<<
    structure = self.assignment_dir
    if self.path_includes_course:
        structure = os.path.join(structure, "{course_id}")
    structure = os.path.join(structure, "{assignment_id}")
    if subdir is not None:
        structure = os.path.join(structure, subdir)
    kwargs = {}
    if assignment_id is not None:
        kwargs["assignment_id"] = assignment_id
    if course_id is not None:
        kwargs["course_id"] = course_id
>> *)
Definition assignment_structure (subdir : option string) : string :=
  let structure := assignment_dir in
  let structure :=
    if path_includes_course then path_join structure "{course_id}"
    else structure in
  let structure := path_join structure "{assignment_id}" in
  match subdir with
  | Some subdir => path_join structure subdir
  | None => structure
  end.

Definition assignment_kwargs (course_id assignment_id : option string)
    : kwargs :=
  let kw : kwargs := ∅ in
  let kw := match assignment_id with
            | Some a => <["assignment_id" := a]> kw
            | None => kw
            end in
  match course_id with
  | Some c => <["course_id" := c]> kw
  | None => kw
  end.

(** [get_assignment_dir(course_id=None, assignment_id=None, subdir=None)]. *)
Definition get_assignment_dir (course_id assignment_id subdir : option string)
    : result (list entry) :=
  scan (assignment_structure subdir) (assignment_kwargs course_id assignment_id).

(** [get_local_submissions], [get_local_feedback], [get_local_autograded],
    [get_local_release] and [get_local_source]: [get_course_dir] on the
    directory of the step. *)
Definition get_local_submissions (student_id assignment_id : option string) :=
  get_course_dir submitted_directory student_id assignment_id.
Definition get_local_feedback (student_id assignment_id : option string) :=
  get_course_dir feedback_directory student_id assignment_id.
Definition get_local_autograded (student_id assignment_id : option string) :=
  get_course_dir autograded_directory student_id assignment_id.
Definition get_local_release (student_id assignment_id : option string) :=
  get_course_dir release_directory student_id assignment_id.
Definition get_local_source (student_id assignment_id : option string) :=
  get_course_dir source_directory student_id assignment_id.

(** [[x["root"] for x in entries]]. *)
Definition roots (entries : list entry) : list string := root <$> entries.

(** [get_local_submissions_paths] and its four siblings:
    [[x["root"] for x in self.get_course_dir(...)]]. *)
Definition get_local_submissions_paths (student_id assignment_id : option string)
    : result (list string) :=
  entries ← get_course_dir submitted_directory student_id assignment_id;
  Returned (roots entries).
Definition get_local_feedback_paths (student_id assignment_id : option string)
    : result (list string) :=
  entries ← get_course_dir feedback_directory student_id assignment_id;
  Returned (roots entries).
Definition get_local_autograded_paths (student_id assignment_id : option string)
    : result (list string) :=
  entries ← get_course_dir autograded_directory student_id assignment_id;
  Returned (roots entries).
Definition get_local_release_paths (student_id assignment_id : option string)
    : result (list string) :=
  entries ← get_course_dir release_directory student_id assignment_id;
  Returned (roots entries).
Definition get_local_source_paths (student_id assignment_id : option string)
    : result (list string) :=
  entries ← get_course_dir source_directory student_id assignment_id;
  Returned (roots entries).

(** [get_local_assignments(assignments, course_id=None)]:
<<
    found_assignments = []
    for assign in assignments:
        found_assignments.extend([
            {"details": {"assignment_id": assign, **x["details"]},
             "files": x["files"]}
            for x in self.get_files(
                self.get_assignment_dir(course_id=course_id, assignment_id=assign))])
    return found_assignments
>> *)
Fixpoint get_local_assignments_from (found_assignments : list found)
    (assignments : list string) (course_id : option string)
    : result (list found) :=
  match assignments with
  | [] => Returned found_assignments
  | assign :: assignments' =>
      entries ← get_assignment_dir course_id (Some assign) None;
      xs ← get_files_of_entries entries;
      get_local_assignments_from
        (found_assignments ++
           ((λ x, Found (details x ∪ {[ "assignment_id" := assign ]}) (files x))
              <$> xs))
        assignments' course_id
  end.

Definition get_local_assignments (assignments : list string)
    (course_id : option string) : result (list found) :=
  get_local_assignments_from [] assignments course_id.

(** [get_local_assignments_paths(assignments, course_id=None)]: the same
    loop, which keeps [x["root"]]. *)
Fixpoint get_local_assignments_paths_from (found_assignments : list string)
    (assignments : list string) (course_id : option string)
    : result (list string) :=
  match assignments with
  | [] => Returned found_assignments
  | assign :: assignments' =>
      entries ← get_assignment_dir course_id (Some assign) None;
      xs ← get_files_of_entries entries;
      get_local_assignments_paths_from
        (found_assignments ++ roots xs) assignments' course_id
  end.

Definition get_local_assignments_paths (assignments : list string)
    (course_id : option string) : result (list string) :=
  get_local_assignments_paths_from [] assignments course_id.

(** [{"status": status, **x["details"]}] with the files of [x]: the details
    of the entry take precedence. *)
Definition tagged (status : string) (x : entry) : found :=
  Found (details x ∪ {[ "status" := status ]}) (files x).

(** [{"assignment_id": assign, "status": "fetched", **x["details"]}] with the
    files of [x]. *)
Definition fetched (assign : string) (x : entry) : found :=
  Found (details x ∪ {[ "assignment_id" := assign; "status" := "fetched" ]})
        (files x).

(** The first loop of [get_all_local_assignments]:
<<
    for assign in assignments:
        found_assignments.extend([
            {"details": {"assignment_id": assign, "status": "fetched", **x["details"]},
             "files": x["files"]}
            for x in self.get_assignment_dir(course_id=course_id, assignment_id=assign)])
>> *)
Fixpoint get_fetched_from (found_assignments : list found)
    (assignments : list string) (course_id : option string)
    : result (list found) :=
  match assignments with
  | [] => Returned found_assignments
  | assign :: assignments' =>
      entries ← get_assignment_dir course_id (Some assign) None;
      get_fetched_from (found_assignments ++ (fetched assign <$> entries))
        assignments' course_id
  end.

(** [get_all_local_assignments(assignments, student_id=None, course_id=None)]:
    the fetched assignments, then what [get_local_submissions],
    [get_local_release], [get_local_autograded] and [get_local_source] find
    for the student, each under its status. *)
Definition get_all_local_assignments (assignments : list string)
    (student_id course_id : option string) : result (list found) :=
  found_assignments ← get_fetched_from [] assignments course_id;
  submitted ← get_local_submissions student_id None;
  released ← get_local_release student_id None;
  autograded ← get_local_autograded student_id None;
  source ← get_local_source student_id None;
  Returned (found_assignments
            ++ (tagged "submitted" <$> submitted)
            ++ (tagged "released" <$> released)
            ++ (tagged "autograded" <$> autograded)
            ++ (tagged "source" <$> source)).

End Layout.

(** *** Structures of the usual shape

    The directory structures of nbgrader, such as
    [{nbgrader_step}/{student_id}/{assignment_id}], are cut by [full_split]
    into parts that are a literal name or one placeholder. *)
Inductive part : Type :=
  | Literal (l : string)
  | Placeholder (n : string).

Definition part_text (p : part) : string :=
  match p with
  | Literal l => l
  | Placeholder n => String "{" (n +:+ "}")
  end.

Definition part_ok (p : part) : bool :=
  match p with
  | Literal l => brace_free l
  | Placeholder n => plain_name n
  end.

(** What a part stands for once the bound placeholders are filled in. *)
Definition part_fill (kw : kwargs) (p : part) : string :=
  match p with
  | Literal l => l
  | Placeholder n => subst kw n
  end.

(** The names of the placeholders that are not bound. *)
Definition unbound (kw : kwargs) (ps : list part) : list string :=
  omap (λ p, match p with
             | Placeholder n => if kw !! n is Some _ then None else Some n
             | Literal _ => None
             end) ps.

(** The names of all placeholders. *)
Definition placeholders (ps : list part) : list string :=
  omap (λ p, match p with Placeholder n => Some n | Literal _ => None end) ps.

(** The segment that a part is. *)
Definition part_segment (p : part) : segment :=
  match p with
  | Literal l => Segment l []
  | Placeholder n => Segment "" [(n, "")]
  end.

End Layout.

(** ** A missing assignment *)

Module NotFound.

(** What [_assignment_not_found] writes to the log. *)
Inductive event : Type :=
  | LogFatal (msg : string)
  | LogError (msg : string).

(** The order of Python on the tuples [(score, path)]: by score, and by
    path among equal scores. *)
Definition score_le (a b : Z * string) : Prop :=
  (a.1 < b.1)%Z ∨ (a.1 = b.1 ∧ String.le a.2 b.2).

#[global] Instance score_le_dec : RelDecision score_le.
Proof. intros a b. unfold score_le. apply _. Defined.

(** [sorted(l)] on such tuples. *)
Definition sorted (l : list (Z * string)) : list (Z * string) :=
  merge_sort score_le l.

Section NotFound.

(** [glob.glob] and [fuzzywuzzy.fuzz.ratio] are outside the repository, and
    [self.src_path] is set by the [init_src] of the subclass.  The import of
    [fuzzywuzzy] inside the function is taken to succeed. *)
Variable glob : string → list string.
Variable ratio : string → string → Z.
Variable self_src_path : string.

(** [_assignment_not_found(src_path, other_path)]:
<<
    msg = f"Assignment not found at: {src_path}"
    self.log.fatal(msg)
    found = glob.glob(other_path)
    if found:
        from fuzzywuzzy import fuzz
        scores = sorted([(fuzz.ratio(self.src_path, x), x) for x in found])
        self.log.error("Did you mean: %s", scores[-1][1])
    raise ExchangeError(msg)
>> *)
Definition _assignment_not_found (src_path other_path : string)
    : result unit * list event :=
  let msg := "Assignment not found at: " +:+ src_path in
  let found := glob other_path in
  let suggestion :=
    match found with
    | [] => []
    | _ :: _ =>
        let scores := sorted ((λ x, (ratio self_src_path x, x)) <$> found) in
        match last scores with
        | Some best => [LogError ("Did you mean: " +:+ best.2)]
        | None => []
        end
    end in
  (Raised (ExchangeError msg), LogFatal msg :: suggestion).

End NotFound.

End NotFound.

(** ** Examples *)

Module Examples.
Import Template Fs Transfer.

(** The segment [./{course_id}/{assignment_id}]. *)
Definition segment_example : segment :=
  Segment "./" [("course_id", "/"); ("assignment_id", "")].

(** A small filesystem; the working directory is [/home]. *)
Definition small_fs : filesystem :=
  Filesystem
    (Dir [("tmp", Dir [("a.txt", File)]);
          ("home", Dir [("s1", Dir [("ps1", Dir [("nb.ipynb", File)])])])])
    ["home"].


(** The scenario of [test_collect_normal_update]: one submission on the
    remote, newer than the local copy. *)
Definition collect_store : gmap string Collect.local_copy :=
  {[ "submitted/1/assign_1_2" :=
       Collect.LocalCopy {[ "assignment-0.6.ipynb" := "old" ]} (Some 1577836800%Z) ]}.

Definition collect_submission : Collect.submission :=
  Collect.Submission "/submitted/no_course/assign_1_2/1/" 1580515200%Z.

Definition collect_target (s : Collect.submission) : string :=
  "submitted/1/assign_1_2".

Definition collect_archive (path : string) : Transfer.directory :=
  {[ "assignment-0.6-2.ipynb" := "new" ]}.

(** The scenario of [test_submit_two_releases_newest_first] and of
    [test_submit_two_releases_newest_last]: two released entries. *)
Definition release_old : Submit.manifest_entry :=
  Submit.ManifestEntry "assign_1_1" "no_course" "1" Submit.released ""
    [Submit.NotebookRef "assignment-0.6" false false None] 1577836800%Z.

Definition release_new : Submit.manifest_entry :=
  Submit.ManifestEntry "assign_1_2" "no_course" "1" Submit.released ""
    [Submit.NotebookRef "assignment-0.6-2" false false None] 1577836860%Z.

(** The scenario of [test_submit_warning_no_notebook]: the local directory
    holds no notebook. *)
Definition empty_assignment : Transfer.directory := ∅.

Definition accepting (archive : Transfer.directory) : Submit.answer :=
  Submit.Answer true "".

(** The scenario of [test_fetch_folder_exists_with_ipynb]. *)
Definition fetch_store : gmap string Transfer.directory :=
  {[ "assign_1_3" := {[ "decoy.ipynb" := " " ]} ]}.

Definition fetch_archive : Transfer.directory :=
  {[ "assignment-0.6.ipynb" := "one"; "assignment-0.6-2.ipynb" := "two" ]}.

End Examples.

(** * Properties *)

#[local] Arguments String.append !s1 s2 : simpl nomatch.

(** ** Strings *)

Module StringFacts.

Lemma append_assoc (a b c : string) : (a +:+ b) +:+ c = a +:+ (b +:+ c).
Proof. induction a as [|x a IH]; simpl; [done | by rewrite IH]. Qed.

Lemma append_nil_r (a : string) : a +:+ "" = a.
Proof. induction a as [|x a IH]; simpl; [done | by rewrite IH]. Qed.

Lemma length_append (a b : string) :
  String.length (a +:+ b) = String.length a + String.length b.
Proof. induction a as [|x a IH]; simpl; [done | by rewrite IH]. Qed.

Lemma length_cons c (a : string) : String.length (String c a) = S (String.length a).
Proof. reflexivity. Qed.

Lemma forallb_append p a b :
  string_forallb p (a +:+ b) = string_forallb p a && string_forallb p b.
Proof. induction a as [|x a IH]; simpl; [done | by rewrite IH, andb_assoc]. Qed.

Lemma forallb_impl (p q : ascii → bool) s :
  (∀ c, p c = true → q c = true) →
  string_forallb p s = true → string_forallb q s = true.
Proof.
  intros Hpq. induction s as [|c s IH]; simpl; [done|].
  intros [Hc Hs]%andb_true_iff. rewrite (Hpq c Hc). by apply IH.
Qed.

Lemma append_cons c (a b : string) : String c a +:+ b = String c (a +:+ b).
Proof. reflexivity. Qed.

Lemma append_empty a b : a +:+ b = "" → a = "".
Proof. by destruct a. Qed.

End StringFacts.

(** ** The regular expression *)

Module RegexFacts.
Import Template StringFacts.

Lemma brace_free_no_open s : brace_free s = true → no_open s = true.
Proof.
  apply forallb_impl. intros c. unfold is_brace. by destruct (is_open c).
Qed.

Lemma brace_free_no_close s : brace_free s = true → no_close s = true.
Proof.
  apply forallb_impl. intros c. unfold is_brace.
  by destruct (is_open c), (is_close c).
Qed.

(** *** Searching text of a known shape *)

Lemma span_key_run n r :
  no_close n = true → span_key (n +:+ String "}" r) = (n, String "}" r).
Proof.
  induction n as [|c n IH]; simpl; [done|].
  unfold no_close; simpl. intros [Hc Hn]%andb_true_iff.
  destruct (is_close c); [done|]. by rewrite IH.
Qed.

Lemma match_braces_hole n r :
  n ≠ "" → no_close n = true →
  match_braces (String "{" (n +:+ String "}" r)) = Some (n, r).
Proof.
  intros Hne Hn. simpl. rewrite span_key_run by done.
  destruct n; [done | reflexivity].
Qed.

Lemma match_braces_not_open c t : is_open c = false → match_braces (String c t) = None.
Proof. simpl. by intros ->. Qed.

Lemma re_search_cons bos c t :
  re_search bos (String c t) =
  match match_at bos (String c t) with
  | Some m => Some m
  | None => re_search false t
  end.
Proof. reflexivity. Qed.

(** A search that starts inside brace-free text finds the first placeholder
    after it: the character before the placeholder is the one that [[^{]]
    consumes. *)
Lemma re_search_hole l n r :
  brace_free l = true → l ≠ "" → n ≠ "" → no_close n = true → ∀ bos,
  re_search bos (l +:+ String "{" (n +:+ String "}" r)) = Some (n, r).
Proof.
  intros Hl Hne Hn Hc. induction l as [|c l IH]; [done|].
  intros bos. unfold brace_free in Hl; simpl in Hl.
  apply andb_true_iff in Hl as [Hb Hl].
  assert (is_open c = false) as Hco.
  { unfold is_brace in Hb. by destruct (is_open c). }
  rewrite append_cons, re_search_cons.
  destruct l as [|c' l].
  - unfold match_at. rewrite Hco. simpl String.append.
    rewrite match_braces_hole by done. done.
  - rewrite IH by done.
    assert (is_open c' = false) as Hco'.
    { simpl in Hl. apply andb_true_iff in Hl as [Hb' _].
      unfold is_brace in Hb'. by destruct (is_open c'). }
    unfold match_at. rewrite Hco.
    rewrite append_cons, !match_braces_not_open by done.
    by destruct bos.
Qed.

Lemma re_search_hole_bos n r :
  n ≠ "" → no_close n = true →
  re_search true (String "{" (n +:+ String "}" r)) = Some (n, r).
Proof.
  intros Hn Hc. simpl. rewrite span_key_run by done.
  destruct n; [done|]. reflexivity.
Qed.

Lemma match_braces_no_open s : no_open s = true → match_braces s = None.
Proof.
  destruct s as [|c s]; [done|]. unfold no_open; simpl.
  intros [Hc _]%andb_true_iff. by destruct (is_open c).
Qed.

Lemma re_search_no_open s : no_open s = true → ∀ bos, re_search bos s = None.
Proof.
  induction s as [|c s IH]; intros Hs bos.
  - by destruct bos.
  - pose proof Hs as Hs'. unfold no_open in Hs'; simpl in Hs'.
    apply andb_true_iff in Hs' as [Hc Hs'].
    simpl. rewrite (match_braces_no_open s) by done.
    destruct (is_open c); [done|]. simpl.
    destruct bos; by apply IH.
Qed.

(** *** What a match looks like *)

Lemma span_key_spec s k r :
  span_key s = (k, r) →
  s = k +:+ r ∧ no_close k = true ∧ (r = "" ∨ ∃ r', r = String "}" r').
Proof.
  revert k r. induction s as [|c s IH]; intros k r; simpl.
  - intros [= <- <-]. split_and!; [done..|by left].
  - destruct (is_close c) eqn:Hc.
    + intros [= <- <-]. split_and!; [done..|]. right. exists s.
      unfold is_close in Hc. apply Ascii.eqb_eq in Hc. by subst.
    + destruct (span_key s) as [k' r'] eqn:Hs. intros [= <- <-].
      destruct (IH k' r' eq_refl) as (-> & Hk & Hr).
      split_and!; [done| |done]. unfold no_close. simpl. by rewrite Hc.
Qed.

Lemma match_braces_spec s k r :
  match_braces s = Some (k, r) →
  s = String "{" (k +:+ String "}" r) ∧ k ≠ "" ∧ no_close k = true.
Proof.
  destruct s as [|c s]; [done|]. simpl.
  destruct (is_open c) eqn:Hc; [|done].
  destruct (span_key s) as [k' r'] eqn:Hs.
  destruct (span_key_spec _ _ _ Hs) as (-> & Hk & Hr).
  destruct k' as [|k0 k']; [done|]. destruct r' as [|c' r']; [done|].
  destruct (is_close c') eqn:Hc'; [|done]. intros [= <- <-].
  unfold is_open in Hc. apply Ascii.eqb_eq in Hc.
  unfold is_close in Hc'. apply Ascii.eqb_eq in Hc'. by subst.
Qed.

Lemma match_at_spec bos s k r :
  match_at bos s = Some (k, r) →
  ∃ a, s = a +:+ String "{" (k +:+ String "}" r) ∧ k ≠ "" ∧ no_close k = true ∧
       String.length a ≤ 1.
Proof.
  unfold match_at. intros Hm.
  assert ((if bos then match_braces s else None) = Some (k, r) →
          ∃ a, s = a +:+ String "{" (k +:+ String "}" r) ∧ k ≠ "" ∧
               no_close k = true ∧ String.length a ≤ 1) as Hcaret.
  { destruct bos; [|done]. intros (-> & ? & ?)%match_braces_spec.
    exists "". split_and!; simpl; try done; lia. }
  destruct s as [|c t]; [by apply Hcaret|].
  destruct (is_open c); [by apply Hcaret|].
  destruct (match_braces t) as [[k' r']|] eqn:Ht; [|by apply Hcaret].
  injection Hm as <- <-. apply match_braces_spec in Ht as (-> & ? & ?).
  exists (String c ""). split_and!; simpl; try done; lia.
Qed.

Lemma re_search_spec s : ∀ bos k r,
  re_search bos s = Some (k, r) →
  ∃ a, s = a +:+ String "{" (k +:+ String "}" r) ∧ k ≠ "" ∧ no_close k = true.
Proof.
  induction s as [|c s IH]; intros bos k r.
  - by destruct bos.
  - rewrite re_search_cons.
    destruct (match_at bos (String c s)) as [[k' r']|] eqn:Hm.
    + intros [= <- <-]. apply match_at_spec in Hm as (a & ? & ? & ? & _).
      by exists a.
    + intros (a & -> & ? & ?)%IH. by exists (String c a).
Qed.

(** A match leaves less text than it was given. *)
Lemma re_search_shorter bos s k r :
  re_search bos s = Some (k, r) → String.length r < String.length s.
Proof.
  intros (a & -> & _)%re_search_spec.
  repeat rewrite ?length_append, ?length_cons. lia.
Qed.

(** *** [finditer] never runs out of fuel *)

Lemma finditer_S fuel bos s :
  finditer (S fuel) bos s =
  match re_search bos s with
  | Some (key, rest) => key :: finditer fuel false rest
  | None => []
  end.
Proof. reflexivity. Qed.

(** [finditer] never runs out of fuel: any budget of at least [length s]
    searches gives the same list. *)
Lemma finditer_enough n : ∀ m bos s,
  String.length s ≤ n → String.length s ≤ m →
  finditer n bos s = finditer m bos s.
Proof.
  induction n as [|n IH]; intros m bos s Hn Hm.
  - destruct s; [|simpl in Hn; lia].
    destruct m; [done|]. by destruct bos.
  - destruct m as [|m].
    + destruct s; [|simpl in Hm; lia]. by destruct bos.
    + rewrite !finditer_S.
      destruct (re_search bos s) as [[k r]|] eqn:Hs; [|done].
      apply re_search_shorter in Hs. f_equal. apply IH; lia.
Qed.

(** *** What [contains_format] decides *)

Lemma match_at_later s m : match_at false s = Some m → match_at true s = Some m.
Proof.
  unfold match_at. destruct s as [|c t]; [done|].
  destruct (is_open c); [done|]. by destruct (match_braces t).
Qed.

Lemma re_search_later a : ∀ bos s m,
  match_at false s = Some m → is_Some (re_search bos (a +:+ s)).
Proof.
  induction a as [|c a IH]; intros bos s m Hm.
  - simpl. destruct s as [|c t].
    + by destruct bos.
    + rewrite re_search_cons.
      assert (match_at bos (String c t) = Some m) as ->; [|done].
      destruct bos; [by apply match_at_later | done].
  - rewrite append_cons, re_search_cons.
    destruct (match_at bos _); [done|]. by eapply IH.
Qed.

Lemma last_char a : a ≠ "" → ∃ a' c, a = a' +:+ String c "".
Proof.
  induction a as [|c a IH]; [done|]. intros _.
  destruct a as [|c' a].
  - by exists "", c.
  - destruct IH as (a' & c'' & Ha); [done|].
    exists (String c a'), c''. simpl. by rewrite Ha.
Qed.

Lemma re_search_complete len : ∀ a n b,
  String.length a ≤ len → n ≠ "" → no_close n = true →
  is_Some (re_search true (a +:+ String "{" (n +:+ String "}" b))).
Proof.
  induction len as [|len IH]; intros a n b Hlen Hn Hc.
  - destruct a; [|simpl in Hlen; lia].
    simpl String.append. by rewrite re_search_hole_bos.
  - destruct (decide (a = "")) as [->|Ha].
    { simpl String.append. by rewrite re_search_hole_bos. }
    destruct (last_char a Ha) as (a' & c & ->).
    rewrite length_append in Hlen. simpl in Hlen.
    rewrite append_assoc. simpl String.append.
    destruct (is_open c) eqn:Hopen.
    + unfold is_open in Hopen. apply Ascii.eqb_eq in Hopen as ->.
      apply (IH a' (String "{" n) b); [lia | done |].
      unfold no_close in *. simpl. done.
    + apply (re_search_later a' true _ (n, b)).
      unfold match_at. rewrite Hopen. by rewrite match_braces_hole.
Qed.

(** [contains_format] is true exactly when the string holds an opening
    brace, then one character or more other than the closing brace, then a
    closing brace.  Whether the opening brace is doubled does not matter. *)
Lemma contains_format_iff s :
  contains_format s = true ↔
  ∃ a n b, s = a +:+ String "{" (n +:+ String "}" b) ∧ n ≠ "" ∧ no_close n = true.
Proof.
  unfold contains_format. split.
  - destruct (re_search true s) as [[k r]|] eqn:Hs; [|done]. intros _.
    apply re_search_spec in Hs as (a & ? & ? & ?). by exists a, k, r.
  - intros (a & n & b & -> & Hn & Hc).
    by destruct (re_search_complete (String.length a) a n b) as [? ->].
Qed.

(** C8.  Text between doubled braces is an escape for [str.format], and
    [contains_format] finds a placeholder in it: the first brace has nothing
    or a character other than a brace before it, and the key that follows it
    starts with the second brace. *)
Theorem contains_format_escaped (a n b : string) :
  no_close n = true →
  contains_format (a +:+ String "{" (String "{" (n +:+ String "}" (String "}" b))))
  = true.
Proof.
  intros Hn. apply contains_format_iff.
  exists a, (String "{" n), (String "}" b). split_and!; [done..|].
  unfold no_close in *. simpl. done.
Qed.

Lemma contains_format_escaped_witness :
  no_close "a" = true ∧
  contains_format "{{a}}" = true.
Proof.
  split; [reflexivity|].
  exact (contains_format_escaped "" "a" "" eq_refl).
Defined.

(** The same by evaluation, with the key that [format_keys] reports. *)
Example format_keys_escaped :
  contains_format "{{a}}" = true ∧ format_keys "{{a}}" = ["{a"] ∧
  contains_format "x{{}}" = true.
Proof. by vm_compute. Qed.

End RegexFacts.

(** ** [str.format] *)

Module FormatFacts.
Import Template StringFacts RegexFacts.

(** *** Plain fields *)

Lemma plain_name_inv n :
  plain_name n = true →
  n ≠ "" ∧ string_forallb (λ c, negb (is_special c)) n = true ∧
  get_integer n = Returned None.
Proof.
  unfold plain_name. intros [[H1 H2]%andb_true_iff H3]%andb_true_iff.
  split_and!; [|done|].
  - apply negb_true_iff, bool_decide_eq_false in H1. done.
  - destruct (get_integer n) as [[z|]|]; done.
Qed.

Lemma plain_name_no_close n : plain_name n = true → no_close n = true.
Proof.
  intros (_ & H & _)%plain_name_inv. revert H. apply forallb_impl.
  intros c. unfold is_special, is_brace.
  destruct (is_close c); [|done]. by rewrite orb_true_r.
Qed.

Lemma scan_literal_text l : brace_free l = true → scan_literal l = (l, None).
Proof.
  induction l as [|c l IH]; [done|]. unfold brace_free; simpl.
  intros [Hc Hl]%andb_true_iff. apply negb_true_iff in Hc. rewrite Hc.
  by rewrite IH.
Qed.

Lemma scan_literal_brace l c r :
  brace_free l = true → is_brace c = true →
  scan_literal (l +:+ String c r) = (l, Some (c, r)).
Proof.
  intros Hl Hc. induction l as [|x l IH]; simpl.
  - by rewrite Hc.
  - unfold brace_free in Hl; simpl in Hl.
    apply andb_true_iff in Hl as [Hx Hl]. apply negb_true_iff in Hx.
    rewrite Hx. by rewrite IH.
Qed.

Lemma special_inv c :
  negb (is_special c) = true →
  is_open c = false ∧ is_close c = false ∧ Ascii.eqb c "." = false ∧
  Ascii.eqb c "[" = false ∧ Ascii.eqb c "!" = false ∧ Ascii.eqb c ":" = false.
Proof.
  unfold is_special, is_brace. intros H%negb_true_iff.
  repeat (apply orb_false_iff in H as [H ?]). done.
Qed.

Lemma scan_field_name_plain n r :
  string_forallb (λ c, negb (is_special c)) n = true →
  scan_field_name false (n +:+ String "}" r) = Returned (n, "}"%char, r).
Proof.
  induction n as [|c n IH]; [done|]. simpl.
  intros [Hc Hn]%andb_true_iff.
  apply special_inv in Hc as (-> & -> & _ & -> & -> & ->). simpl.
  by rewrite IH.
Qed.

Lemma split_first_plain n :
  string_forallb (λ c, negb (is_special c)) n = true → split_first n = (n, "").
Proof.
  induction n as [|c n IH]; [done|]. simpl.
  intros [Hc Hn]%andb_true_iff.
  apply special_inv in Hc as (_ & _ & -> & -> & _ & _). simpl.
  by rewrite IH.
Qed.

Lemma parse_field_plain n r :
  string_forallb (λ c, negb (is_special c)) n = true →
  parse_field (n +:+ String "}" r) = Returned (Field n None "", r).
Proof.
  intros Hn. unfold parse_field. by rewrite scan_field_name_plain.
Qed.

Lemma markup_next_hole l n r :
  brace_free l = true → plain_name n = true →
  markup_next (l +:+ String "{" (n +:+ String "}" r))
  = Returned (Some (l, Some (Field n None ""), r)).
Proof.
  intros Hl (Hne & Hn & _)%plain_name_inv.
  assert (markup_next (l +:+ String "{" (n +:+ String "}" r))
          = ('(f, r') ← parse_field (n +:+ String "}" r);
             Returned (Some (l, Some f, r')))) as ->.
  { unfold markup_next. rewrite scan_literal_brace by done.
    destruct n as [|c n]; [done|].
    simpl in Hn. apply andb_true_iff in Hn as [Hc _].
    apply special_inv in Hc as (Hc & _).
    change (is_open c) with (Ascii.eqb c "{") in Hc.
    rewrite Ascii.eqb_sym in Hc.
    rewrite append_cons. rewrite Hc. simpl is_close. cbv iota.
    by destruct l. }
  by rewrite parse_field_plain.
Qed.

Lemma markup_next_text l :
  brace_free l = true → l ≠ "" → markup_next l = Returned (Some (l, None, "")).
Proof.
  intros Hl Hne. unfold markup_next. rewrite scan_literal_text by done.
  by destruct l.
Qed.

(** *** Every step consumes a character *)

Lemma scan_literal_spec s : ∀ lit c t,
  scan_literal s = (lit, Some (c, t)) → s = lit +:+ String c t.
Proof.
  induction s as [|x s IH]; intros lit c t; [done|]. simpl.
  destruct (is_brace x); [by intros [= <- <- <-]|].
  destruct (scan_literal s) as [l [[c' t']|]] eqn:Hs; [|done].
  intros [= <- <- <-]. simpl. by rewrite (IH l c' t').
Qed.

Lemma scan_field_name_shorter s : ∀ skipping n d r,
  scan_field_name skipping s = Returned (n, d, r) →
  String.length r < String.length s.
Proof.
  induction s as [|c s IH]; intros skipping n d r; [done|]. simpl.
  assert (∀ sk, (scan_field_name sk s ≫= λ '(n0, d0, r0),
                   Returned (String c n0, d0, r0)) = Returned (n, d, r) →
                String.length r < S (String.length s)) as Hrec.
  { intros sk. destruct (scan_field_name sk s) as [[[n0 d0] r0]|] eqn:Hs;
      [|done]. simpl. intros [= <- <- <-]. apply IH in Hs. lia. }
  destruct skipping; [by apply Hrec|].
  destruct (is_open c); [done|].
  destruct (is_close c || Ascii.eqb c ":" || Ascii.eqb c "!").
  - intros [= <- <- <-]. lia.
  - by apply Hrec.
Qed.

Lemma scan_format_spec_shorter s : ∀ depth sp r,
  scan_format_spec depth s = Returned (sp, r) →
  String.length r < String.length s.
Proof.
  induction s as [|c s IH]; intros depth sp r; [done|]. simpl.
  assert (∀ d, (scan_format_spec d s ≫= λ '(sp0, r0),
                  Returned (String c sp0, r0)) = Returned (sp, r) →
               String.length r < S (String.length s)) as Hrec.
  { intros d. destruct (scan_format_spec d s) as [[sp0 r0]|] eqn:Hs; [|done].
    simpl. intros [= <- <-]. apply IH in Hs. lia. }
  destruct (is_close c).
  - destruct depth; [|by apply Hrec]. intros [= <- <-]. lia.
  - by apply Hrec.
Qed.

Lemma parse_field_shorter s f r :
  parse_field s = Returned (f, r) → String.length r < String.length s.
Proof.
  unfold parse_field.
  destruct (scan_field_name false s) as [[[n d] r0]|] eqn:Hname; [|done].
  apply scan_field_name_shorter in Hname. simpl.
  assert (∀ cv r1, (scan_format_spec 0 r1 ≫= λ '(sp, r2),
                      Returned (Field n cv sp, r2)) = Returned (f, r) →
                   String.length r < String.length r1) as Hspec.
  { intros cv r1. destruct (scan_format_spec 0 r1) as [[sp r2]|] eqn:Hs;
      [|done]. simpl. intros [= <- <-]. by apply scan_format_spec_shorter in Hs. }
  destruct (Ascii.eqb d "!").
  - destruct r0 as [|cv r1]; [done|]. destruct r1 as [|c r2].
    + intros H%Hspec. simpl in *. lia.
    + destruct (is_close c).
      * intros [= <- <-]. simpl in *. lia.
      * destruct (Ascii.eqb c ":"); [|done].
        intros H%Hspec. simpl in *. lia.
  - destruct (Ascii.eqb d ":").
    + intros H%Hspec. lia.
    + intros [= <- <-]. lia.
Qed.

Lemma markup_next_shorter s lit fld rest :
  markup_next s = Returned (Some (lit, fld, rest)) →
  String.length rest < String.length s.
Proof.
  unfold markup_next. destruct s as [|x s]; [done|].
  destruct (scan_literal (String x s)) as [l [[c t]|]] eqn:Hlit.
  - apply scan_literal_spec in Hlit. rewrite Hlit.
    destruct t as [|c' t']; [by destruct (is_close c)|].
    destruct (Ascii.eqb c c').
    + intros [= <- <- <-]. repeat rewrite ?length_append, ?length_cons. lia.
    + destruct (is_close c); [done|].
      destruct (parse_field (String c' t')) as [[f r]|] eqn:Hf; [|done].
      simpl. intros [= <- <- <-]. apply parse_field_shorter in Hf.
      repeat rewrite ?length_append, ?length_cons in *. lia.
  - intros [= <- <- <-]. simpl. lia.
Qed.

Section FormatFacts.

Variable render : kwargs → string → string → option ascii → string → result string.

Lemma format_loop_S fuel kw s :
  format_loop render (S fuel) kw s =
  (piece ← markup_next s;
   match piece with
   | None => Returned ""
   | Some (lit, fld, rest) =>
       out ← match fld with
             | None => Returned ""
             | Some f => format_field render kw f
             end;
       tail ← format_loop render fuel kw rest;
       Returned (lit +:+ out +:+ tail)
   end).
Proof. reflexivity. Qed.

(** Any budget above [length s] gives the same result: the branch of
    [format_loop] that is out of fuel is never taken by [str_format]. *)
Lemma format_loop_enough (kw : kwargs) n : ∀ m s,
  String.length s < n → String.length s < m →
  format_loop render n kw s = format_loop render m kw s.
Proof.
  induction n as [|n IH]; intros m s Hn Hm; [lia|].
  destruct m as [|m]; [lia|]. rewrite !format_loop_S.
  destruct (markup_next s) as [[[[lit fld] rest]|]|e] eqn:Hnext; [|done..].
  apply markup_next_shorter in Hnext. simpl.
  destruct (match fld with
            | Some f => format_field render kw f
            | None => Returned ""
            end); [|done].
  simpl. rewrite (IH m rest); [done|lia..].
Qed.

Hypothesis render_plain : ∀ kw v, render kw v "" None "" = Returned v.

Lemma format_field_plain kw n v :
  plain_name n = true → kw !! n = Some v →
  format_field render kw (Field n None "") = Returned v.
Proof.
  intros (Hne & Hn & Hint)%plain_name_inv Hv. unfold format_field. simpl.
  rewrite split_first_plain by done. rewrite Hint. simpl.
  rewrite bool_decide_eq_false_2 by done.
  simpl. rewrite Hv. apply render_plain.
Qed.

End FormatFacts.

End FormatFacts.

(** ** Partial formatting *)

Module TemplateFacts.
Import Template StringFacts RegexFacts FormatFacts Examples.

(** *** The keys of a segment *)

Lemma holes_text_length hs : List.length hs ≤ String.length (holes_text hs).
Proof.
  induction hs as [|[n l] hs IH]; simpl; [lia|].
  rewrite !length_append. simpl. rewrite length_append. lia.
Qed.

Lemma finditer_holes hs : ∀ fuel bos l,
  List.length hs ≤ fuel →
  brace_free l = true →
  forallb (λ h, plain_name h.1 && brace_free h.2) hs = true →
  separated hs = true →
  (hs ≠ [] → l ≠ "" ∨ bos = true) →
  finditer fuel bos (l +:+ holes_text hs) = hs.*1.
Proof.
  induction hs as [|[n l1] hs IH]; intros fuel bos l Hfuel Hl Hhs Hsep Hstart.
  - simpl. rewrite append_nil_r.
    destruct fuel; [done|]. simpl.
    by rewrite re_search_no_open by by apply brace_free_no_open.
  - destruct fuel as [|fuel]; [simpl in Hfuel; lia|].
    simpl in Hhs. apply andb_true_iff in Hhs as [[Hn Hl1]%andb_true_iff Hhs].
    pose proof (plain_name_inv _ Hn) as (Hne & _ & _).
    pose proof (plain_name_no_close _ Hn) as Hnc.
    assert (re_search bos (l +:+ holes_text ((n, l1) :: hs))
            = Some (n, l1 +:+ holes_text hs)) as Hfound.
    { simpl holes_text. destruct (decide (l = "")) as [->|Hlne].
      - destruct Hstart as [?| ->]; [done|done|].
        by apply re_search_hole_bos.
      - by apply re_search_hole. }
    rewrite finditer_S, Hfound. simpl. f_equal.
    apply IH; [simpl in Hfuel; lia | done | done | |].
    + simpl in Hsep. destruct hs; [done|].
      by apply andb_true_iff in Hsep as [_ ?].
    + intros Hhs'. simpl in Hsep. destruct hs as [|h hs]; [done|].
      apply andb_true_iff in Hsep as [Hsep _].
      apply negb_true_iff, bool_decide_eq_false in Hsep. by left.
Qed.

Lemma format_keys_text t :
  well_formed t = true → format_keys (text t) = (holes t).*1.
Proof.
  unfold well_formed. intros [[Hl Hhs]%andb_true_iff Hsep]%andb_true_iff.
  unfold format_keys, text. apply finditer_holes; try done; [|by right].
  rewrite length_append. pose proof (holes_text_length (holes t)). lia.
Qed.

(** *** Formatting a segment *)

Section TemplateFacts.

Variable render : kwargs → string → string → option ascii → string → result string.
Hypothesis render_plain : ∀ kw v, render kw v "" None "" = Returned v.

Lemma format_loop_holes (values kw : kwargs) hs : ∀ fuel l,
  String.length (l +:+ holes_text hs) < fuel →
  brace_free l = true →
  forallb (λ h, plain_name h.1 && brace_free h.2) hs = true →
  (∀ n, n ∈ hs.*1 → kw !! n = Some (subst values n)) →
  format_loop render fuel kw (l +:+ holes_text hs)
  = Returned (l +:+ holes_fill values hs).
Proof.
  induction hs as [|[n l1] hs IH]; intros fuel l Hfuel Hl Hhs Hkw.
  - simpl in *. rewrite append_nil_r in *.
    destruct fuel as [|fuel]; [clear -Hfuel; lia|]. rewrite format_loop_S.
    destruct (decide (l = "")) as [->|Hne]; [done|].
    rewrite markup_next_text by done. simpl.
    destruct fuel as [|fuel]; simpl; by rewrite append_nil_r.
  - simpl in Hhs. apply andb_true_iff in Hhs as [[Hn Hl1]%andb_true_iff Hhs].
    destruct fuel as [|fuel]; [clear -Hfuel; lia|]. rewrite format_loop_S.
    simpl holes_text. rewrite markup_next_hole by done. simpl.
    rewrite (format_field_plain render render_plain kw n (subst values n)); [|done|].
    2:{ apply Hkw. simpl. apply list_elem_of_here. }
    simpl. rewrite IH; [done| |done|done|].
    + simpl holes_text in Hfuel.
      repeat rewrite ?length_append, ?length_cons in Hfuel.
      rewrite length_append. clear -Hfuel. lia.
    + intros m Hm. apply Hkw. simpl. by apply list_elem_of_further.
Qed.

Lemma format_defaults_lookup formats (values : kwargs) n :
  n ∈ formats → values !! n = None →
  format_defaults formats values !! n = Some (String "{" (n +:+ "}")).
Proof.
  intros Hin Hnone. unfold format_defaults.
  induction formats as [|x formats IH]; [by apply elem_of_nil in Hin|].
  rewrite filter_cons. destruct (decide (x = n)) as [->|Hne].
  - rewrite decide_True by done. simpl. apply lookup_insert_eq.
  - apply elem_of_cons in Hin as [->|Hin]; [done|].
    destruct (decide (values !! x = None)); simpl.
    + rewrite lookup_insert_ne by done. by apply IH.
    + by apply IH.
Qed.

Lemma maybe_format_dict formats (values : kwargs) n :
  n ∈ formats →
  (values ∪ format_defaults formats values) !! n = Some (subst values n).
Proof.
  intros Hin. unfold subst. destruct (values !! n) as [v|] eqn:Hv; simpl.
  - by apply lookup_union_Some_l.
  - rewrite lookup_union_r by done. by apply format_defaults_lookup.
Qed.

Lemma holes_fill_no_open (values : kwargs) hs :
  forallb (λ h, plain_name h.1 && brace_free h.2) hs = true →
  (∀ n, n ∈ hs.*1 → ∃ v, values !! n = Some v ∧ no_open v = true) →
  no_open (holes_fill values hs) = true.
Proof.
  induction hs as [|[n l] hs IH]; intros Hhs Hbound; [done|].
  simpl in Hhs. apply andb_true_iff in Hhs as [[Hn Hl]%andb_true_iff Hhs].
  simpl. unfold no_open. rewrite !forallb_append.
  destruct (Hbound n) as (v & Hv & Hvo); [simpl; apply list_elem_of_here|].
  unfold subst. rewrite Hv. simpl.
  apply andb_true_iff; split; [done|].
  apply andb_true_iff; split; [by apply brace_free_no_open|].
  apply IH; [done|]. intros m Hm. apply Hbound. simpl.
  by apply list_elem_of_further.
Qed.

Lemma maybe_format_text (t : segment) (values : kwargs) :
  well_formed t = true →
  maybe_format render (text t) values = Returned (fill values t).
Proof.
  intros Hwf. pose proof (format_keys_text t Hwf) as Hkeys.
  unfold well_formed in Hwf.
  apply andb_true_iff in Hwf as [[Hl Hhs]%andb_true_iff Hsep].
  unfold maybe_format, str_format. rewrite Hkeys. unfold text, fill.
  rewrite (format_loop_holes values); [done| lia |done|done|].
  intros n Hn. by apply maybe_format_dict.
Qed.

Lemma fill_no_placeholder (t : segment) (values : kwargs) :
  well_formed t = true →
  (∀ n, n ∈ (holes t).*1 → ∃ v, values !! n = Some v ∧ no_open v = true) →
  contains_format (fill values t) = false.
Proof.
  unfold well_formed.
  intros [[Hl Hhs]%andb_true_iff Hsep]%andb_true_iff Hbound.
  unfold contains_format, fill. rewrite re_search_no_open; [done|].
  unfold no_open. rewrite forallb_append.
  apply andb_true_iff; split; [by apply brace_free_no_open|].
  by apply holes_fill_no_open.
Qed.

(** C3, as amended.  On a segment made of brace-free text and placeholders
    with plain names, no two of them adjacent, [format_keys] finds every
    placeholder, and [maybe_format] replaces the placeholders whose names are
    bound by their values and leaves the others as [{name}].  When every name
    is bound to a value without an opening brace, no placeholder is left in
    the result. *)
Theorem maybe_format_segment (t : segment) (values : kwargs) :
  well_formed t = true →
  format_keys (text t) = (holes t).*1 ∧
  maybe_format render (text t) values = Returned (fill values t) ∧
  ((∀ n, n ∈ (holes t).*1 → ∃ v, values !! n = Some v ∧ no_open v = true) →
   contains_format (fill values t) = false).
Proof.
  intros Hwf. split_and!.
  - by apply format_keys_text.
  - by apply maybe_format_text.
  - by apply fill_no_placeholder.
Qed.

End TemplateFacts.

Lemma render_plain_only_plain (kw : kwargs) (v : string) :
  render_plain_only kw v "" None "" = Returned v.
Proof. reflexivity. Qed.

Lemma maybe_format_segment_witness :
  well_formed segment_example = true ∧
  maybe_format render_plain_only "./{course_id}/{assignment_id}"
    {[ "assignment_id" := "ps1" ]}
  = Returned "./{course_id}/ps1".
Proof.
  split; [reflexivity|].
  exact (proj1 (proj2 (maybe_format_segment render_plain_only
           render_plain_only_plain segment_example
           {[ "assignment_id" := "ps1" ]} eq_refl))).
Defined.

(** C3, as stated, fails: the only placeholder of ["{a}"] is bound, and the
    result still contains a placeholder, the one that the value brought. *)
Lemma maybe_format_value_with_braces :
  format_keys "{a}" = ["a"] ∧
  maybe_format render_plain_only "{a}" {[ "a" := "{b}" ]} = Returned "{b}" ∧
  contains_format "{b}" = true.
Proof. by vm_compute. Qed.

(** Two adjacent placeholders: [format_keys] misses the second one, the
    substitution fails on it and nothing is substituted at all. *)
Example maybe_format_adjacent :
  format_keys "{a}{b}" = ["a"] ∧
  maybe_format render_plain_only "{a}{b}" {[ "a" := "x" ]} = Returned "{a}{b}".
Proof. by vm_compute. Qed.

(** A placeholder whose name is a number is a positional index for
    [str.format]: the substitution raises [IndexError], whatever is bound. *)
Example maybe_format_positional render (values : kwargs) :
  format_keys "{0}" = ["0"] ∧
  maybe_format render "{0}" values
  = Raised (IndexError "tuple index out of range").
Proof. split; reflexivity. Qed.

(** A placeholder with a dotted name whose first part is not bound: the
    lookup fails with [KeyError] and the segment comes back unchanged. *)
Example maybe_format_dotted render :
  maybe_format render "{a.b}/x" ∅ = Returned "{a.b}/x".
Proof. reflexivity. Qed.

Lemma scan_field_name_open n :
  string_forallb (λ c, negb (is_special c)) n = true →
  scan_field_name false n
  = Raised (ValueError "expected '}' before end of string").
Proof.
  induction n as [|c n IH]; [done|]. simpl.
  intros [Hc Hn]%andb_true_iff.
  apply special_inv in Hc as (-> & -> & _ & -> & -> & ->). simpl.
  by rewrite IH.
Qed.

(** C7.  A segment with an opening brace that is never closed: [str.format]
    raises [ValueError], which [maybe_format] does not catch.  The text
    before the brace is free of braces, the text after it is not empty and
    holds no character that [str.format] gives a meaning to. *)
Theorem maybe_format_unmatched_open render (values : kwargs) (l n : string) :
  brace_free l = true → n ≠ "" →
  string_forallb (λ c, negb (is_special c)) n = true →
  maybe_format render (l +:+ String "{" n) values
  = Raised (ValueError "expected '}' before end of string").
Proof.
  intros Hl Hne Hn. unfold maybe_format, str_format.
  rewrite format_loop_S.
  assert (markup_next (l +:+ String "{" n)
          = Raised (ValueError "expected '}' before end of string")) as ->;
    [|done].
  unfold markup_next. rewrite scan_literal_brace by done.
  destruct n as [|c n]; [done|].
  unfold parse_field. rewrite scan_field_name_open by done.
  simpl in Hn. apply andb_true_iff in Hn as [Hc _].
  apply special_inv in Hc as (Hc & _).
  change (is_open c) with (Ascii.eqb c "{") in Hc.
  rewrite Ascii.eqb_sym in Hc. rewrite Hc. simpl.
  by destruct l.
Qed.

Lemma maybe_format_unmatched_open_witness :
  brace_free "" = true ∧ "abc" ≠ "" ∧
  string_forallb (λ c, negb (is_special c)) "abc" = true ∧
  maybe_format render_plain_only "{abc" {[ "abc" := "x" ]}
  = Raised (ValueError "expected '}' before end of string").
Proof.
  split_and!; [reflexivity | done | reflexivity |].
  exact (maybe_format_unmatched_open render_plain_only
           {[ "abc" := "x" ]} "" "abc" eq_refl (λ H, eq_ind "abc"
             (λ s, match s with "" => False | _ => True end) I "" H) eq_refl).
Defined.

(** A closing brace that was never opened. *)
Example maybe_format_unmatched_close render (values : kwargs) :
  maybe_format render "abc}" values
  = Raised (ValueError "Single '}' encountered in format string").
Proof. reflexivity. Qed.

End TemplateFacts.

(** ** Collapsing a directory structure *)

Module CollapseFacts.
Import Template.

Lemma no_adjacent_nil : no_adjacent_literals [].
Proof. intros i x y Hx. by rewrite lookup_nil in Hx. Qed.

Lemma no_adjacent_prefix l z : no_adjacent_literals (l ++ [z]) → no_adjacent_literals l.
Proof.
  intros H i x y Hx Hy. apply (H i x y); by apply lookup_app_l_Some.
Qed.

Lemma no_adjacent_snoc l z :
  no_adjacent_literals l →
  (∀ p, last l = Some p → contains_format p || contains_format z = true) →
  no_adjacent_literals (l ++ [z]).
Proof.
  intros Hl Hlast i x y Hx Hy.
  apply lookup_app_Some in Hy as [Hy|[Hlen Hy]].
  - apply (Hl i x y); [|done].
    apply lookup_app_Some in Hx as [Hx|[Hlen _]]; [done|].
    apply lookup_lt_Some in Hy. lia.
  - apply list_lookup_singleton_Some in Hy as [Hi <-].
    apply lookup_app_Some in Hx as [Hx|[Hlen' _]]; [|lia].
    apply Hlast. rewrite last_lookup.
    replace (pred (List.length l)) with i by lia. done.
Qed.

Lemma join_group_snoc g p : g ≠ [] → join_group (g ++ [p]) = path_join (join_group g) p.
Proof.
  destruct g as [|x g]; [done|]. intros _. simpl. by rewrite foldl_app.
Qed.

Lemma collapse_append acc (groups : list (list string)) the_part :
  acc = join_group <$> groups →
  Forall good_group groups →
  no_adjacent_literals acc →
  (∀ p, last acc = Some p →
     contains_format p || contains_format the_part = true) →
  ∃ groups',
    acc ++ [the_part] = join_group <$> groups' ∧
    Forall good_group groups' ∧
    no_adjacent_literals (acc ++ [the_part]) ∧
    List.concat groups' = List.concat groups ++ [the_part].
Proof.
  intros Hacc Hgood Hadj Hlast. exists (groups ++ [[the_part]]). split_and!.
  - by rewrite fmap_app, Hacc.
  - apply Forall_app; split; [done|]. apply Forall_singleton.
    split; [done|]. by intros p ->%list_elem_of_singleton.
  - by apply no_adjacent_snoc.
  - rewrite concat_app. simpl. by rewrite ?app_nil_r.
Qed.

Lemma collapse_merge acc0 prev (groups : list (list string)) the_part :
  acc0 ++ [prev] = join_group <$> groups →
  Forall good_group groups →
  no_adjacent_literals (acc0 ++ [prev]) →
  contains_format the_part = false →
  contains_format prev = false →
  ∃ groups',
    acc0 ++ [path_join prev the_part] = join_group <$> groups' ∧
    Forall good_group groups' ∧
    no_adjacent_literals (acc0 ++ [path_join prev the_part]) ∧
    List.concat groups' = List.concat groups ++ [the_part].
Proof.
  intros Hacc Hgood Hadj Hp1 Hp2.
  destruct (decide (groups = [])) as [->|Hne]; [by destruct acc0|].
  destruct (exists_last Hne) as (groups0 & g & ->).
  rewrite fmap_app in Hacc. simpl in Hacc.
  apply app_inj_tail in Hacc as [-> ->].
  apply Forall_app in Hgood as [Hgood0 [Hg _]%Forall_cons].
  destruct Hg as [Hgne Hg].
  exists (groups0 ++ [g ++ [the_part]]). split_and!.
  - rewrite fmap_app. simpl. by rewrite join_group_snoc.
  - apply Forall_app; split; [done|]. apply Forall_singleton.
    split; [by destruct g|].
    intros p [Hp| ->%list_elem_of_singleton]%elem_of_app Hcf.
    + specialize (Hg p Hp Hcf). subst g. simpl in Hp2. congruence.
    + congruence.
  - apply no_adjacent_snoc; [by eapply no_adjacent_prefix|].
    intros p Hp.
    assert (contains_format p || contains_format (join_group g) = true) as Hor.
    { apply last_Some in Hp as [acc1 Hacc1].
      apply (Hadj (List.length acc1) p (join_group g)).
      - rewrite Hacc1, <-app_assoc. by apply list_lookup_middle.
      - rewrite Hacc1. apply list_lookup_middle.
        rewrite length_app. simpl. lia. }
    rewrite Hp2, orb_false_r in Hor. by rewrite Hor.
  - rewrite !concat_app. simpl. by rewrite ?app_nil_r, ?app_assoc.
Qed.

Section CollapseFacts.

Variable render : kwargs → string → string → option ascii → string → result string.
Variable full_split : string → list string.
Variable kw : kwargs.

Lemma collapse_step_inv acc part acc' (groups : list (list string)) :
  collapse_step render kw acc part = Returned acc' →
  acc = join_group <$> groups →
  Forall good_group groups →
  no_adjacent_literals acc →
  ∃ the_part groups',
    call_maybe_format render part kw = Returned the_part ∧
    acc' = join_group <$> groups' ∧
    Forall good_group groups' ∧
    no_adjacent_literals acc' ∧
    List.concat groups' = List.concat groups ++ [the_part].
Proof.
  unfold collapse_step. intros Hstep Hacc Hgood Hadj.
  destruct (call_maybe_format render part kw) as [the_part|e] eqn:Hfmt; [|done].
  simpl in Hstep. exists the_part.
  destruct (last acc) as [prev|] eqn:Hlast.
  - destruct (negb (contains_format the_part) && negb (contains_format prev))
      eqn:Hpf.
    + apply andb_true_iff in Hpf as [Hp1%negb_true_iff Hp2%negb_true_iff].
      injection Hstep as <-.
      apply last_Some in Hlast as [acc0 ->].
      rewrite length_app; simpl.
      replace (pred (List.length acc0 + 1)) with (List.length acc0 + 0) by lia.
      rewrite insert_app_r. simpl.
      destruct (collapse_merge acc0 prev groups the_part) as (groups' & ?);
        [done..|].
      exists groups'. by split.
    + injection Hstep as <-.
      destruct (collapse_append acc groups the_part) as (groups' & ?);
        [done..| |by exists groups'].
      intros p Hp. rewrite Hlast in Hp. injection Hp as <-.
      apply andb_false_iff in Hpf.
      destruct Hpf as [H%negb_false_iff|H%negb_false_iff]; rewrite H;
        [apply orb_true_r | done].
  - injection Hstep as <-.
    destruct (collapse_append acc groups the_part) as (groups' & ?);
      [done..| |by exists groups'].
    intros p Hp. by rewrite Hlast in Hp.
Qed.

Lemma collapse_loop_inv structure : ∀ acc out (groups : list (list string)),
  collapse_loop render kw acc structure = Returned out →
  acc = join_group <$> groups →
  Forall good_group groups →
  no_adjacent_literals acc →
  ∃ the_parts groups',
    Forall2 (λ part the_part,
               call_maybe_format render part kw = Returned the_part)
            structure the_parts ∧
    out = join_group <$> groups' ∧
    Forall good_group groups' ∧
    no_adjacent_literals out ∧
    List.concat groups' = List.concat groups ++ the_parts.
Proof.
  induction structure as [|part structure IH];
    intros acc out groups Hloop Hacc Hgood Hadj.
  - injection Hloop as <-. exists [], groups.
    split_and!; [constructor|done..|by rewrite app_nil_r].
  - simpl in Hloop.
    destruct (collapse_step render kw acc part) as [acc'|e] eqn:Hstep; [|done].
    simpl in Hloop.
    destruct (collapse_step_inv _ _ _ _ Hstep Hacc Hgood Hadj)
      as (the_part & groups1 & Hfmt & Hacc1 & Hgood1 & Hadj1 & Hcat1).
    destruct (IH _ _ _ Hloop Hacc1 Hgood1 Hadj1)
      as (the_parts & groups2 & Hall & Hout & Hgood2 & Hadj2 & Hcat2).
    exists (the_part :: the_parts), groups2. split_and!; try done.
    + by constructor.
    + by rewrite Hcat2, Hcat1, <-app_assoc.
Qed.

(** C9.  In the list that [get_directory_structure] returns no two
    neighbours are both free of placeholders, and the list is the list of
    formatted parts cut into groups of consecutive parts, each group joined
    into one path: a part that contains a placeholder is a group of its
    own. *)
Theorem get_directory_structure_collapsed directory_structure out :
  get_directory_structure render full_split directory_structure kw
    = Returned out →
  no_adjacent_literals out ∧
  ∃ the_parts groups,
    Forall2 (λ part the_part,
               call_maybe_format render part kw = Returned the_part)
            (full_split directory_structure) the_parts ∧
    List.concat groups = the_parts ∧
    out = join_group <$> groups ∧
    Forall good_group groups.
Proof.
  unfold get_directory_structure. intros Hloop.
  destruct (collapse_loop_inv _ [] out [] Hloop)
    as (the_parts & groups & Hall & Hout & Hgood & Hadj & Hcat);
    [done | constructor | apply no_adjacent_nil |].
  split; [done|]. by exists the_parts, groups.
Qed.

End CollapseFacts.

Section Returns.

Variable render : kwargs → string → string → option ascii → string → result string.
Hypothesis render_plain : ∀ kw v, render kw v "" None "" = Returned v.
Variable full_split : string → list string.
Variable kw : kwargs.

Lemma collapse_step_returns acc part the_part :
  call_maybe_format render part kw = Returned the_part →
  ∃ acc', collapse_step render kw acc part = Returned acc'.
Proof.
  intros Hfmt. unfold collapse_step. rewrite Hfmt. simpl.
  destruct (last acc) as [prev|]; [|by eexists].
  destruct (negb (contains_format the_part) && negb (contains_format prev));
    by eexists.
Qed.

(** A directory structure whose parts are segments of the usual shape is
    always collapsed: [get_directory_structure] returns a list. *)
Lemma get_directory_structure_returns directory_structure :
  Forall (λ part, ∃ t, well_formed t = true ∧ part = text t)
         (full_split directory_structure) →
  kw !! "string" = None →
  ∃ out, get_directory_structure render full_split directory_structure kw
         = Returned out.
Proof.
  unfold get_directory_structure. generalize (@nil string).
  induction (full_split directory_structure) as [|part parts IH];
    intros acc Hparts Hkw; [by eexists|].
  apply Forall_cons in Hparts as [(t & Hwf & ->) Hparts]. simpl.
  destruct (collapse_step_returns acc (text t) (fill kw t)) as [acc' ->].
  { unfold call_maybe_format.
    rewrite bool_decide_eq_false_2 by (rewrite Hkw; by intros [? ?]).
    by apply TemplateFacts.maybe_format_text. }
  simpl. by apply IH.
Qed.

End Returns.


Lemma get_directory_structure_collapsed_witness :
  get_directory_structure render_plain_only split_slash
    "./{course_id}/{assignment_id}/sub/dir" {[ "assignment_id" := "ps1" ]}
  = Returned ["."; "{course_id}"; "ps1/sub/dir"] ∧
  no_adjacent_literals ["."; "{course_id}"; "ps1/sub/dir"].
Proof.
  assert (get_directory_structure render_plain_only split_slash
            "./{course_id}/{assignment_id}/sub/dir" {[ "assignment_id" := "ps1" ]}
          = Returned ["."; "{course_id}"; "ps1/sub/dir"]) as Hrun
    by (vm_compute; reflexivity).
  split; [exact Hrun|].
  exact (proj1 (get_directory_structure_collapsed render_plain_only
                  split_slash _ _ _ Hrun)).
Defined.

End CollapseFacts.

(** ** The directory scanner *)

Module ScanFacts.
Import Template Fs Scan StringFacts Examples.

Lemma split_slash_nonempty s : split_slash s ≠ [].
Proof.
  destruct s as [|c s]; [done|]. simpl.
  destruct (is_slash c); [done|]. by destruct (split_slash s).
Qed.

Lemma split_slash_app a b :
  split_slash (a +:+ String "/" b) = split_slash a ++ split_slash b.
Proof.
  induction a as [|c a IH]; [done|]. simpl.
  destruct (is_slash c); [by rewrite IH|].
  rewrite IH. pose proof (split_slash_nonempty a).
  by destruct (split_slash a).
Qed.

Lemma endswith_sep_inv a : endswith_sep a = true → ∃ a', a = a' +:+ "/".
Proof.
  induction a as [|c a IH]; [done|]. simpl.
  destruct a as [|c' a].
  - intros Hc. exists "". simpl. f_equal.
    unfold is_slash in Hc. by apply Ascii.eqb_eq in Hc.
  - intros [a' Ha']%IH. exists (String c a'). simpl. by rewrite Ha'.
Qed.

Lemma startswith_sep_app a b :
  a ≠ "" → startswith_sep (a +:+ b) = startswith_sep a.
Proof. by destruct a. Qed.

Lemma walk_all_app fs pos cs1 cs2 :
  walk_all fs pos (cs1 ++ cs2) = walk_all fs pos cs1 ≫= λ p, walk_all fs p cs2.
Proof.
  revert pos. induction cs1 as [|c cs1 IH]; intros pos; [done|]. simpl.
  destruct (walk fs pos c) as [pos'|]; simpl; [apply IH | done].
Qed.

(** Looking a component up needs a directory to look in. *)
Lemma walk_dir fs pos c pos' :
  walk fs pos c = Some pos' → ∃ es, node_at (fs_root fs) pos = Some (Dir es).
Proof.
  unfold walk. destruct (node_at (fs_root fs) pos) as [[|es]|]; [done| |done].
  intros _. by exists es.
Qed.

Lemma walk_empty fs pos es :
  node_at (fs_root fs) pos = Some (Dir es) → walk fs pos "" = Some pos.
Proof. unfold walk. by intros ->. Qed.

(** A path under [a] only resolves when [a] resolves. *)
Lemma resolve_under fs a b :
  a ≠ "" → startswith_sep b = false →
  is_Some (resolve fs (path_join a b)) → is_Some (resolve fs a).
Proof.
  intros Ha Hb. unfold path_join. rewrite Hb.
  rewrite bool_decide_eq_false_2 by done. simpl.
  unfold resolve. rewrite (bool_decide_eq_false_2 (a = "")) by done.
  pose proof (split_slash_nonempty b) as Hbne.
  destruct (endswith_sep a) eqn:Hend.
  - apply endswith_sep_inv in Hend as [a' ->].
    rewrite bool_decide_eq_false_2 by (by intros ?%append_empty).
    rewrite append_assoc. simpl String.append.
    rewrite !split_slash_app. simpl split_slash.
    assert (startswith_sep (a' +:+ String "/" b) = startswith_sep (a' +:+ "/"))
      as ->.
    { by destruct a'. }
    set (start := if startswith_sep (a' +:+ "/") then [] else fs_cwd fs).
    rewrite !walk_all_app.
    destruct (walk_all fs start (split_slash a')) as [pos|]; simpl;
      [|by intros [? ?]].
    destruct (split_slash b) as [|c cs]; [done|]. simpl.
    destruct (walk fs pos c) as [pos'|] eqn:Hwalk; simpl; [|by intros [? ?]].
    intros _. apply walk_dir in Hwalk as [es Hes].
    rewrite (walk_empty _ _ _ Hes). simpl. by rewrite Hes.
  - rewrite bool_decide_eq_false_2 by (by intros ?%append_empty).
    rewrite split_slash_app, startswith_sep_app by done.
    set (start := if startswith_sep a then [] else fs_cwd fs).
    rewrite walk_all_app.
    destruct (walk_all fs start (split_slash a)) as [pos|]; simpl;
      [|by intros [? ?]].
    destruct (split_slash b) as [|c cs]; [done|]. simpl.
    destruct (walk fs pos c) as [pos'|] eqn:Hwalk; simpl; [|by intros [? ?]].
    intros _. apply walk_dir in Hwalk as [es Hes]. by rewrite Hes.
Qed.


Lemma path_join_nonempty a b : a ≠ "" → startswith_sep b = false → path_join a b ≠ "".
Proof.
  intros Ha Hb. unfold path_join. rewrite Hb.
  destruct (bool_decide (a = "") || endswith_sep a);
    by intros ?%append_empty.
Qed.

Lemma path_exists_under fs a b :
  a ≠ "" → startswith_sep b = false →
  path_exists fs a = false → path_exists fs (path_join a b) = false.
Proof.
  intros Ha Hb. unfold path_exists.
  pose proof (resolve_under fs a b Ha Hb) as Hunder.
  destruct (resolve fs a); [done|]. intros _.
  destruct (resolve fs (path_join a b)); [|done].
  by destruct Hunder as [? ?].
Qed.

Lemma isdir_exists fs a : path_exists fs a = false → isdir fs a = false.
Proof. unfold path_exists, isdir. by destruct (resolve fs a). Qed.

(** C4, as amended.  A scan from a root that does not exist returns the
    empty list, whatever the template starts with (nothing, a literal
    segment or a placeholder), as long as the root is not the empty path and
    the literal segments ahead of the first placeholder are relative. *)
Theorem get_files_missing_root fs (root : string) (structure : list string)
    (kw : kwargs) :
  root ≠ "" →
  path_exists fs root = false →
  leading_relative structure = true →
  get_files fs (RootPath root) structure kw = Returned [].
Proof.
  simpl. revert root. induction structure as [|seg structure IH];
    intros root Hne Hmissing Hrel; simpl.
  - by rewrite isdir_exists.
  - simpl in Hrel. destruct (contains_format seg); simpl.
    + by rewrite Hmissing.
    + apply andb_true_iff in Hrel as [Hseg%negb_true_iff Hrel].
      apply IH; [by apply path_join_nonempty | by apply path_exists_under | done].
Qed.

Lemma get_files_missing_root_witness :
  "nope" ≠ "" ∧ path_exists small_fs "nope" = false ∧
  leading_relative ["sub"; "{student_id}"; "/abs"] = true ∧
  get_files small_fs (RootPath "nope") ["sub"; "{student_id}"; "/abs"] ∅
  = Returned [].
Proof.
  split_and!; [done | reflexivity | reflexivity |].
  by apply (get_files_missing_root small_fs "nope").
Defined.

(** C4, as stated, fails: the root does not exist, the template starts with a
    literal segment, and the scan returns a listing, because joining an
    absolute segment to a root forgets the root. *)
Lemma get_files_absolute_segment :
  path_exists small_fs "/nope" = false ∧
  contains_format "/tmp" = false ∧
  get_files small_fs (RootPath "/nope") ["/tmp"] ∅
  = Returned [Entry ["/tmp/a.txt"] "/tmp" ∅].
Proof. by vm_compute. Qed.

(** The same with the empty path as root. *)
Example get_files_empty_root :
  path_exists small_fs "" = false ∧
  get_files small_fs (RootPath "") ["s1"; "ps1"] ∅
  = Returned [Entry ["s1/ps1/nb.ipynb"] "s1/ps1" ∅].
Proof. by vm_compute. Qed.

End ScanFacts.

(** ** Requests *)

Module ApiFacts.
Import Api.

Section ApiFacts.

Variable response : Type.
Variable send : request → result response.
Variable repr_partial : request → string.
Variable urljoin : string → string → string.
Variable base_service_url : string.
Variable NAAS_JWT : option string.

Local Abbreviation run :=
  (api_request response send repr_partial urljoin base_service_url NAAS_JWT).
Local Abbreviation service :=
  (urljoin base_service_url "/services/nbexchange/").

Lemma api_request_supported path method extra v :
  (method = "GET" ∧ v = GET) ∨ (method = "POST" ∧ v = POST) ∨
  (method = "DELETE" ∧ v = DELETE) →
  ∃ r, req_verb r = v ∧ req_url r = service +:+ path ∧ req_extra r = extra ∧
       (run path method extra).1 = send r ∧
       http_calls (run path method extra).2 = [r].
Proof.
  intros [[-> ->]|[[-> ->]|[-> ->]]];
    eexists (Request _ (service +:+ path) ∅ _ extra); split_and!; reflexivity.
Qed.

Lemma api_request_unsupported path method extra :
  method ≠ "GET" → method ≠ "POST" → method ≠ "DELETE" →
  (run path method extra).1
    = Raised (NotImplementedError
                ("HTTP Method " +:+ method +:+ " is not implemented")) ∧
  http_calls (run path method extra).2 = [].
Proof.
  intros H1 H2 H3.
  unfold api_request, service_url, and_then, emit, perform; simpl.
  by rewrite !bool_decide_eq_false_2 by done.
Qed.

(** C10.  [api_request] sends one request, with the verb that the method
    names, to the service URL followed by the path, and hands back what the
    network answers; a method other than GET, POST and DELETE raises
    [NotImplementedError] with the method in its message and sends
    nothing. *)
Theorem api_request_dispatch path method extra :
  (∀ v, (method = "GET" ∧ v = GET) ∨ (method = "POST" ∧ v = POST) ∨
        (method = "DELETE" ∧ v = DELETE) →
     ∃ r, req_verb r = v ∧ req_url r = service +:+ path ∧
          req_extra r = extra ∧
          (run path method extra).1 = send r ∧
          http_calls (run path method extra).2 = [r]) ∧
  (method ≠ "GET" → method ≠ "POST" → method ≠ "DELETE" →
     (run path method extra).1
       = Raised (NotImplementedError
                   ("HTTP Method " +:+ method +:+ " is not implemented")) ∧
     http_calls (run path method extra).2 = []).
Proof.
  split; [intros v; apply api_request_supported|].
  apply api_request_unsupported.
Qed.

End ApiFacts.

(** The tests of [test_plugin_exchange.py]: with [NAAS_JWT] set, each of the
    three methods sends one request to the service URL followed by ["test"],
    with the token in the cookie [noteable_auth]; any other method sends
    nothing. *)
Example api_request_tests :
  let run := api_request string (λ _, Returned "Success") (λ _, "")
               (λ base path, base +:+ path) "https://noteable.edina.ac.uk"
               (Some "test_token") in
  let url := "https://noteable.edina.ac.uk/services/nbexchange/test" in
  let cookies : kwargs := {[ "noteable_auth" := "test_token" ]} in
  (run "test" "POST" []).1 = Returned "Success" ∧
  http_calls (run "test" "POST" []).2 = [Request POST url ∅ cookies []] ∧
  http_calls (run "test" "DELETE" []).2 = [Request DELETE url ∅ cookies []] ∧
  http_calls (run "test" "GET" []).2 = [Request GET url ∅ cookies []] ∧
  (run "test" "PUT" []).1
    = Raised (NotImplementedError "HTTP Method PUT is not implemented") ∧
  http_calls (run "test" "PUT" []).2 = [] ∧
  http_calls (run "test" "get" []).2 = [].
Proof. by vm_compute. Qed.

End ApiFacts.

(** ** The transfer operations *)

Module CollectFacts.
Import Transfer Collect Examples.

Section CollectFacts.

Variable target : submission → string.
Variable archive : string → directory.
Variable update : bool.

Local Abbreviation step := (collect_entry target archive update).

Lemma collect_entry_unfold store trace s :
  step (store, trace) s =
  if wants_download update s (store !! target s) then
    (<[target s := extracted archive s]> store,
     trace ++ [Download (sub_path s) (target s)])
  else (store, trace).
Proof. reflexivity. Qed.

(** Entries for other targets leave a target alone. *)
Lemma collect_others subs : ∀ store trace dest,
  dest ∉ target <$> subs →
  (foldl step (store, trace) subs).1 !! dest = store !! dest ∧
  ∀ p, Download p dest ∈ (foldl step (store, trace) subs).2 →
       Download p dest ∈ trace.
Proof.
  induction subs as [|s subs IH]; intros store trace dest Hnot; [done|].
  simpl in Hnot. apply not_elem_of_cons in Hnot as [Hne Hnot].
  simpl foldl. rewrite ?collect_entry_unfold.
  destruct (wants_download update s (store !! target s)).
  - destruct (IH (<[target s:=extracted archive s]> store)
                 (trace ++ [Download (sub_path s) (target s)]) dest Hnot)
      as [Hstore Htrace].
    split; [by rewrite Hstore, lookup_insert_ne|].
    intros p Hp. apply Htrace in Hp.
    apply elem_of_app in Hp as [Hp|Hp%list_elem_of_singleton]; [done|].
    congruence.
  - by apply IH.
Qed.

Lemma collect_trace_grows subs : ∀ store trace e,
  e ∈ trace → e ∈ (foldl step (store, trace) subs).2.
Proof.
  induction subs as [|s subs IH]; intros store trace e He; [done|].
  simpl foldl. rewrite ?collect_entry_unfold.
  destruct (wants_download update s (store !! target s)); apply IH; [|done].
  apply elem_of_app. by left.
Qed.

(** What collect does for one entry of the list, when no other entry of the
    list has the same target. *)
Lemma collect_one store subs s :
  NoDup (target <$> subs) → s ∈ subs →
  let final := collect target archive update store subs in
  if wants_download update s (store !! target s) then
    Download (sub_path s) (target s) ∈ final.2 ∧
    final.1 !! target s = Some (extracted archive s)
  else
    (∀ p, Download p (target s) ∉ final.2) ∧
    final.1 !! target s = store !! target s.
Proof.
  intros Hnodup [before [after ->]]%list_elem_of_split.
  rewrite fmap_app in Hnodup. simpl in Hnodup.
  apply NoDup_app in Hnodup as (_ & Hbefore & [Hafter _]%NoDup_cons).
  assert (target s ∉ target <$> before) as Hbefore'.
  { intros Hin. apply (Hbefore _ Hin). apply list_elem_of_here. }
  unfold collect. cbv zeta. rewrite foldl_app. simpl foldl.
  destruct (collect_others before store [] (target s) Hbefore')
    as [Hstore1 Htrace1].
  destruct (foldl step (store, []) before) as [store1 trace1].
  simpl in Hstore1, Htrace1.
  rewrite ?collect_entry_unfold, Hstore1.
  destruct (wants_download update s (store !! target s)).
  - destruct (collect_others after (<[target s:=extracted archive s]> store1)
                (trace1 ++ [Download (sub_path s) (target s)]) (target s) Hafter)
      as [Hstore2 _].
    split.
    + apply collect_trace_grows, elem_of_app. right. apply list_elem_of_here.
    + by rewrite Hstore2, lookup_insert_eq.
  - destruct (collect_others after store1 trace1 (target s) Hafter)
      as [Hstore2 Htrace2].
    split; [|by rewrite Hstore2].
    intros p Hp. apply Htrace2, Htrace1 in Hp. by apply elem_of_nil in Hp.
Qed.


End CollectFacts.

Lemma collect_store_lookup :
  collect_store !! collect_target collect_submission
  = Some (LocalCopy {[ "assignment-0.6.ipynb" := "old" ]} (Some 1577836800%Z)).
Proof. reflexivity. Qed.


End CollectFacts.

Module SubmitFacts.
Import Transfer Submit Examples.

Lemma selected_newer seen best e :
  selected seen best → selected (seen ++ [e]) (newer best e).
Proof.
  unfold newer. destruct (is_released e) eqn:He.
  - destruct best as [b|]; simpl.
    + intros (before & after & -> & Hb & Hlt & Hle).
      case_bool_decide as Hnew.
      * exists (before ++ b :: after), []. split_and!.
        -- by rewrite <-app_assoc.
        -- done.
        -- intros x [Hx|[->|Hx]%elem_of_cons]%elem_of_app Hrel.
           ++ specialize (Hlt x Hx Hrel). lia.
           ++ done.
           ++ specialize (Hle x Hx Hrel). lia.
        -- intros x Hx. by apply elem_of_nil in Hx.
      * exists before, (after ++ [e]). split_and!.
        -- by rewrite <-app_assoc.
        -- done.
        -- done.
        -- intros x [Hx| ->%list_elem_of_singleton]%elem_of_app Hrel.
           ++ by apply Hle.
           ++ lia.
    + intros Hnone. exists seen, []. split_and!; [done..| |].
      * intros x Hx Hrel. by rewrite (Hnone x Hx) in Hrel.
      * intros x Hx. by apply elem_of_nil in Hx.
  - destruct best as [b|]; simpl.
    + intros (before & after & -> & Hb & Hlt & Hle).
      exists before, (after ++ [e]). split_and!; [by rewrite <-app_assoc|done..|].
      intros x [Hx| ->%list_elem_of_singleton]%elem_of_app Hrel.
      * by apply Hle.
      * congruence.
    + intros Hnone x [Hx| ->%list_elem_of_singleton]%elem_of_app; [by apply Hnone|done].
Qed.

Lemma selected_foldl entries : ∀ seen best,
  selected seen best → selected (seen ++ entries) (foldl newer best entries).
Proof.
  induction entries as [|e entries IH]; intros seen best Hsel; simpl.
  - by rewrite app_nil_r.
  - replace (seen ++ e :: entries) with ((seen ++ [e]) ++ entries)
      by by rewrite <-app_assoc.
    by apply IH, selected_newer.
Qed.

Lemma select_release_selected entries : selected entries (select_release entries).
Proof. apply (selected_foldl entries [] None). by intros e ?%elem_of_nil. Qed.

Lemma selected_max seen r e :
  selected seen (Some r) → e ∈ seen → is_released e = true →
  (timestamp e ≤ timestamp r)%Z.
Proof.
  intros (before & after & -> & Hr & Hlt & Hle)
         [He|[->|He]%elem_of_cons]%elem_of_app Hrel.
  - specialize (Hlt e He Hrel). lia.
  - lia.
  - by apply Hle.
Qed.

Lemma selected_elem seen r : selected seen (Some r) → r ∈ seen ∧ is_released r = true.
Proof.
  intros (before & after & -> & Hr & _). split; [|done].
  apply elem_of_app. right. apply list_elem_of_here.
Qed.

(** C2.  Submit checks the local directory against the selected release.
    The selected release is a released entry of the list, no released entry
    is newer, and no released entry before it in the list is as new.  The
    timestamp of the selected entry does not depend on the order of the
    list, and neither does the entry when no two released entries share a
    timestamp. *)
Theorem select_release_newest (entries : list manifest_entry) :
  (∀ strict assignment now remote local,
     submit strict assignment now remote (Some local) entries
     = submit_checked strict assignment now remote local
         (select_release entries)) ∧
  selected entries (select_release entries) ∧
  ∀ entries', entries' ≡ₚ entries →
    timestamp <$> select_release entries' = timestamp <$> select_release entries ∧
    ((∀ e1 e2, e1 ∈ entries → e2 ∈ entries →
        is_released e1 = true → is_released e2 = true →
        timestamp e1 = timestamp e2 → e1 = e2) →
     select_release entries' = select_release entries).
Proof.
  split; [done|]. split; [apply select_release_selected|].
  intros entries' Hperm.
  enough (timestamp <$> select_release entries'
          = timestamp <$> select_release entries) as Hsame.
  { split; [done|]. intros Hunique.
    pose proof (select_release_selected entries) as Hsel.
    pose proof (select_release_selected entries') as Hsel'.
    destruct (select_release entries) as [r|],
             (select_release entries') as [r'|]; try done.
    injection Hsame as Hsame.
    destruct (selected_elem _ _ Hsel) as [Hin Hrel].
    destruct (selected_elem _ _ Hsel') as [Hin' Hrel'].
    f_equal. apply Hunique; [by rewrite <-Hperm|done..]. }
  pose proof (select_release_selected entries) as Hsel.
  pose proof (select_release_selected entries') as Hsel'.
  destruct (select_release entries) as [r|], (select_release entries') as [r'|];
    simpl.
  - f_equal.
    destruct (selected_elem _ _ Hsel) as [Hin Hrel].
    destruct (selected_elem _ _ Hsel') as [Hin' Hrel'].
    assert (timestamp r ≤ timestamp r')%Z.
    { apply (selected_max entries'); [done| |done]. by rewrite Hperm. }
    assert (timestamp r' ≤ timestamp r)%Z.
    { apply (selected_max entries); [done| |done]. by rewrite <-Hperm. }
    lia.
  - destruct (selected_elem _ _ Hsel) as [Hin Hrel].
    simpl in Hsel'. rewrite Hsel' in Hrel; [done|]. by rewrite Hperm.
  - destruct (selected_elem _ _ Hsel') as [Hin' Hrel'].
    simpl in Hsel. rewrite Hsel in Hrel'; [done|]. by rewrite <-Hperm.
  - done.
Qed.

Section SubmitFacts.

Variable strict : bool.
Variable the_assignment : string.
Variable now : string.
Variable remote : directory → answer.

(** C5.  When the notebooks of the local directory are not those of the
    selected release, a strict submit fails with a validation error that
    names the assignment and posts nothing; a lenient submit warns about the
    missing and the extra notebooks, posts the archive and ends as the remote
    answer says. *)
Theorem submit_mismatch_policy (local : directory)
    (entries : list manifest_entry) (r : manifest_entry) :
  select_release entries = Some r →
  notebook_ids local ≠ manifest_ids r →
  let missing := manifest_ids r ∖ notebook_ids local in
  let extra := notebook_ids local ∖ manifest_ids r in
  let packed := <["timestamp.txt" := now]> local in
  submit strict the_assignment now remote (Some local) entries =
  if strict then (inl (ValidationError the_assignment missing extra), [])
  else (if success (remote packed) then inr tt
        else inl (RemoteError (note (remote packed))),
        [Warning missing extra; Post "assignment" "assignment.tar.gz" packed]).
Proof.
  intros Hsel Hdiff. simpl. rewrite Hsel. unfold submit_checked, validate.
  rewrite bool_decide_eq_false_2 by done. by destruct strict.
Qed.

End SubmitFacts.

(** The two orders of the tests: the newer release is selected in both. *)
Example select_release_two_orders :
  select_release [release_new; release_old] = Some release_new ∧
  select_release [release_old; release_new] = Some release_new.
Proof. split; reflexivity. Qed.

(** Of two released entries with the same timestamp the first one wins. *)
Example select_release_tie :
  select_release
    [ManifestEntry "a" "c" "1" released "" [] 5%Z;
     ManifestEntry "b" "c" "1" released "" [] 5%Z;
     ManifestEntry "d" "c" "1" submitted "" [] 9%Z]
  = Some (ManifestEntry "a" "c" "1" released "" [] 5%Z).
Proof. reflexivity. Qed.

Lemma submit_mismatch_policy_witness :
  select_release [release_old] = Some release_old ∧
  notebook_ids empty_assignment ≠ manifest_ids release_old ∧
  submit false "assign_1_1" "2020-01-01" accepting (Some empty_assignment)
    [release_old]
  = (inr tt,
     [Warning (manifest_ids release_old ∖ notebook_ids empty_assignment)
              (notebook_ids empty_assignment ∖ manifest_ids release_old);
      Post "assignment" "assignment.tar.gz"
        (<["timestamp.txt" := "2020-01-01"]> empty_assignment)]).
Proof.
  assert (notebook_ids empty_assignment ≠ manifest_ids release_old) as Hdiff.
  { intros Heq.
    assert ("assignment-0.6" ∈ notebook_ids empty_assignment) as Hin
      by (rewrite Heq; unfold manifest_ids; simpl; set_solver).
    unfold notebook_ids, empty_assignment in Hin.
    rewrite dom_empty_L, elements_empty in Hin. simpl in Hin. set_solver. }
  split_and!; [reflexivity | exact Hdiff |].
  exact (submit_mismatch_policy false "assign_1_1" "2020-01-01" accepting
           empty_assignment [release_old] release_old eq_refl Hdiff).
Defined.

End SubmitFacts.

Module FetchFacts.
Import Transfer Fetch Examples.

Lemma has_notebooks_intro (d : directory) name :
  name ∈ dom d → is_notebook name = true → has_notebooks d = true.
Proof.
  intros Hin Hnb. unfold has_notebooks. apply bool_decide_eq_true.
  apply Exists_exists. exists name. split; [|done]. by apply elem_of_elements.
Qed.

(** C6.  A fetch whose destination exists and holds a notebook fails with
    the error that says so, and the local layout is what it was: nothing of
    the archive has been written. *)
Theorem fetch_conflict course assignment dest (archive d : directory)
    (store : gmap string directory) name :
  store !! dest = Some d → name ∈ dom d → is_notebook name = true →
  fetch course assignment dest archive store
  = (inl (ConflictError dest), store, [GetArchive course assignment]) ∧
  contains_text "already have notebook documents" (conflict_message dest) = true.
Proof.
  intros Hd Hin Hnb. split; [|reflexivity].
  unfold fetch. rewrite Hd. by rewrite (has_notebooks_intro d name).
Qed.


Lemma fetch_conflict_witness :
  fetch_store !! "assign_1_3" = Some {[ "decoy.ipynb" := " " ]} ∧
  "decoy.ipynb" ∈ dom ({[ "decoy.ipynb" := " " ]} : directory) ∧
  is_notebook "decoy.ipynb" = true ∧
  fetch "no_course" "assign_1_3" "assign_1_3" fetch_archive fetch_store
  = (inl (ConflictError "assign_1_3"), fetch_store,
     [GetArchive "no_course" "assign_1_3"]).
Proof.
  assert ("decoy.ipynb" ∈ dom ({[ "decoy.ipynb" := " " ]} : directory)) as Hin
    by set_solver.
  split_and!; [reflexivity | exact Hin | reflexivity |].
  exact (proj1 (fetch_conflict "no_course" "assign_1_3" "assign_1_3"
                  fetch_archive _ fetch_store "decoy.ipynb"
                  eq_refl Hin eq_refl)).
Defined.

End FetchFacts.

(** ** More on the regular expression and on partial formatting *)

Module KeysFacts.
Import Template StringFacts RegexFacts FormatFacts TemplateFacts Examples.

(** X1.  [contains_format] decides whether the string holds an opening
    brace, then at least one character other than a closing brace, then a
    closing brace; what stands before the opening brace does not matter. *)
Theorem contains_format_shape (s : string) :
  contains_format s = true ↔
  ∃ a n b, s = a +:+ String "{" (n +:+ String "}" b) ∧ n ≠ "" ∧
           no_close n = true.
Proof. apply contains_format_iff. Qed.

Lemma finditer_keys fuel : ∀ bos s k,
  k ∈ finditer fuel bos s →
  k ≠ "" ∧ no_close k = true ∧
  ∃ a b, s = a +:+ String "{" (k +:+ String "}" b).
Proof.
  induction fuel as [|fuel IH]; intros bos s k; [by intros ?%elem_of_nil|].
  rewrite finditer_S.
  destruct (re_search bos s) as [[k0 rest]|] eqn:Hsearch;
    [|by intros ?%elem_of_nil].
  apply re_search_spec in Hsearch as (a & -> & Hne & Hnc).
  intros [->|Hin]%elem_of_cons.
  - split_and!; [done..|]. by exists a, rest.
  - destruct (IH _ _ _ Hin) as (Hk & Hknc & a' & b' & ->).
    split_and!; [done..|].
    exists (a +:+ String "{" (k0 +:+ String "}" a')), b'.
    rewrite !append_assoc. simpl. by rewrite !append_assoc.
Qed.

(** X2.  [format_keys] and [contains_format] agree: the list of keys is
    empty exactly when [contains_format] answers no.  Every key that is
    listed is a non-empty text without closing brace that stands between
    braces in the string. *)
Theorem format_keys_contains_format (s : string) :
  (format_keys s = [] ↔ contains_format s = false) ∧
  (∀ k, k ∈ format_keys s →
     k ≠ "" ∧ no_close k = true ∧
     ∃ a b, s = a +:+ String "{" (k +:+ String "}" b)).
Proof.
  split; [|intros k; apply finditer_keys].
  unfold format_keys, contains_format. destruct s as [|c s]; [done|].
  rewrite length_cons, finditer_S.
  by destruct (re_search true (String c s)) as [[k r]|].
Qed.

Section Passes.

Variable render : kwargs → string → string → option ascii → string → result string.
Hypothesis render_plain : ∀ kw v, render kw v "" None "" = Returned v.

(** Filling the bound placeholders of a run of placeholders leaves text
    followed by a run of placeholders. *)
Lemma holes_fill_segment (v1 : kwargs) hs :
  forallb (λ h, plain_name h.1 && brace_free h.2) hs = true →
  separated hs = true →
  (∀ n v, n ∈ hs.*1 → v1 !! n = Some v → brace_free v = true) →
  ∃ p rest,
    brace_free p = true ∧
    forallb (λ h, plain_name h.1 && brace_free h.2) rest = true ∧
    separated rest = true ∧
    (rest ≠ [] → hs ≠ []) ∧
    holes_fill v1 hs = p +:+ holes_text rest ∧
    ∀ v2 : kwargs, p +:+ holes_fill v2 rest = holes_fill (v1 ∪ v2) hs.
Proof.
  induction hs as [|[n l] hs IH]; intros Hhs Hsep Hfree.
  - exists "", []. by split_and!.
  - simpl in Hhs.
    apply andb_true_iff in Hhs as [[Hn Hl]%andb_true_iff Hhs].
    assert (separated hs = true ∧ (hs ≠ [] → l ≠ "")) as [Hsep' Hlne].
    { simpl in Hsep. destruct hs as [|h hs']; [done|].
      apply andb_true_iff in Hsep as [Hl'%negb_true_iff Hsep].
      split; [done|]. intros _. by apply bool_decide_eq_false in Hl'. }
    destruct IH as (p & rest & Hp & Hrest & Hrsep & Hne & Hfill & Hunion);
      [done|done| |].
    { intros m v Hm. apply Hfree. simpl. by apply list_elem_of_further. }
    destruct (v1 !! n) as [v|] eqn:Hv.
    + exists (v +:+ l +:+ p), rest. split_and!; try done.
      * unfold brace_free in *. rewrite !forallb_append, Hl, Hp.
        rewrite (Hfree n v); [done| |done]. simpl. apply list_elem_of_here.
      * simpl. unfold subst. rewrite Hv. simpl.
        by rewrite Hfill, !append_assoc.
      * intros v2. simpl. unfold subst.
        rewrite (lookup_union_Some_l v1 v2 n v Hv). simpl.
        by rewrite <-Hunion, !append_assoc.
    + exists "", ((n, l +:+ p) :: rest). split_and!; try done.
      * simpl. rewrite Hn, Hrest. unfold brace_free in *.
        by rewrite forallb_append, Hl, Hp.
      * simpl. destruct rest as [|h rest']; [done|].
        rewrite Hrsep. rewrite bool_decide_eq_false_2; [done|].
        intros Hempty%append_empty. by apply Hlne; [apply Hne|].
      * simpl. unfold subst. rewrite Hv. simpl.
        by rewrite Hfill, !append_assoc.
      * intros v2. simpl. unfold subst.
        rewrite (lookup_union_r v1 v2 n Hv).
        by rewrite <-Hunion, !append_assoc.
Qed.

(** X3.  Formatting in two passes is formatting once with both sets of
    values, the values of the first pass taking precedence: on a segment of
    the usual shape, when the values that the first pass puts in hold no
    brace. *)
Theorem maybe_format_two_passes (t : segment) (v1 v2 : kwargs) :
  well_formed t = true →
  (∀ n v, n ∈ (holes t).*1 → v1 !! n = Some v → brace_free v = true) →
  (s ← maybe_format render (text t) v1; maybe_format render s v2)
  = maybe_format render (text t) (v1 ∪ v2).
Proof.
  intros Hwf Hfree.
  rewrite !(maybe_format_text render render_plain) by done. simpl.
  unfold well_formed in Hwf.
  apply andb_true_iff in Hwf as [[Hl Hhs]%andb_true_iff Hsep].
  destruct (holes_fill_segment v1 (holes t))
    as (p & rest & Hp & Hrest & Hrsep & _ & Hfill & Hunion); [done..|].
  unfold fill at 1. rewrite Hfill, <-append_assoc.
  change ((lead t +:+ p) +:+ holes_text rest)
    with (text (Segment (lead t +:+ p) rest)).
  rewrite (maybe_format_text render render_plain).
  - unfold fill. simpl. by rewrite append_assoc, Hunion.
  - unfold well_formed. simpl. rewrite Hrest, Hrsep.
    unfold brace_free in *. by rewrite forallb_append, Hl, Hp.
Qed.

End Passes.

Lemma maybe_format_two_passes_witness :
  well_formed segment_example = true ∧
  (s ← maybe_format render_plain_only "./{course_id}/{assignment_id}"
         {[ "assignment_id" := "ps1" ]};
   maybe_format render_plain_only s {[ "course_id" := "c1" ]})
  = maybe_format render_plain_only "./{course_id}/{assignment_id}"
      ({[ "assignment_id" := "ps1" ]} ∪ {[ "course_id" := "c1" ]}) ∧
  maybe_format render_plain_only "./{course_id}/{assignment_id}"
      ({[ "assignment_id" := "ps1" ]} ∪ {[ "course_id" := "c1" ]})
  = Returned "./c1/ps1".
Proof.
  split; [reflexivity|]. split; [|by vm_compute].
  apply (maybe_format_two_passes render_plain_only render_plain_only_plain
           segment_example {[ "assignment_id" := "ps1" ]}
           {[ "course_id" := "c1" ]} eq_refl).
  intros n v _ Hv. apply lookup_singleton_Some in Hv as [_ <-]. reflexivity.
Defined.

End KeysFacts.

(** ** What a scan finds *)

Module WalkFacts.
Import Template Fs Scan Walk StringFacts Examples.

(** *** An induction principle for the scanner *)

Section Induction.

Variable fs : filesystem.
Variable P : string → list string → kwargs → entry → Prop.

Hypothesis P_listing : ∀ root kw names,
  isdir fs root = true → listdir fs root = Returned names →
  P root [] kw (Entry (path_join root <$> names) root kw).

Hypothesis P_literal : ∀ root seg rest kw e,
  contains_format seg = false →
  P (path_join root seg) rest kw e → P root (seg :: rest) kw e.

Hypothesis P_placeholder : ∀ root seg rest kw names filename e,
  contains_format seg = true →
  listdir fs root = Returned names → filename ∈ names →
  isdir fs (path_join root filename) = true →
  P (path_join root filename) rest (<[strip_braces seg := filename]> kw) e →
  P root (seg :: rest) kw e.

Lemma get_files_path_entries structure : ∀ root kw es,
  get_files_path fs root structure kw = Returned es →
  ∀ e, e ∈ es → P root structure kw e.
Proof.
  induction structure as [|seg rest IH]; intros root kw es; simpl.
  - destruct (isdir fs root) eqn:Hdir; [|by intros [= <-] e ?%elem_of_nil].
    destruct (listdir fs root) as [names|] eqn:Hls; [|done]. simpl.
    intros [= <-] e ->%list_elem_of_singleton. by apply P_listing.
  - destruct (contains_format seg) eqn:Hseg; simpl.
    2:{ intros Hrun e He. apply P_literal; [done|]. by eapply IH. }
    destruct (path_exists fs root); [|by intros [= <-] e ?%elem_of_nil].
    destruct (listdir fs root) as [names|] eqn:Hls; [|done]. simpl.
    assert (∀ f, f ∈ names → f ∈ names) as Hsub by done.
    revert Hsub. generalize names at 1 3 as todo.
    assert (∀ f, <[strip_braces seg := f]> kw = <[strip_braces seg := f]> kw)
      as Hkw by done.
    revert Hkw. generalize kw at 1 3 as kwc. intros kwc Hkw todo. revert kwc Hkw es.
    induction todo as [|f todo IHtodo]; intros kwc Hkw es Hsub;
      [by intros [= <-] e ?%elem_of_nil|].
    rewrite Hkw.
    assert (∀ g, <[strip_braces seg := g]> (<[strip_braces seg := f]> kw)
                 = <[strip_braces seg := g]> kw) as Hkw'
      by (intros g; by rewrite insert_insert_eq).
    assert (∀ g, g ∈ todo → g ∈ names) as Hsub'
      by (intros g Hg; by apply Hsub, list_elem_of_further).
    destruct (isdir fs (path_join root f)) eqn:Hdir.
    + destruct (clashes (<[strip_braces seg:=f]> kw)); [done|].
      destruct (get_files_path fs (path_join root f) rest
                  (<[strip_braces seg:=f]> kw)) as [found|] eqn:Hfound; [|done].
      simpl.
      match goal with
      | |- context [ mbind _ ?m ] => destruct m as [more|] eqn:Hmore; [|done]
      end.
      simpl. intros [= <-] e [He|He]%elem_of_app.
      * eapply P_placeholder; [done|done| |done|by eapply IH].
        apply Hsub, list_elem_of_here.
      * exact (IHtodo _ Hkw' more Hsub' Hmore e He).
    + simpl.
      match goal with
      | |- context [ mbind _ ?m ] => destruct m as [more|] eqn:Hmore; [|done]
      end.
      simpl. intros [= <-] e He.
      exact (IHtodo _ Hkw' more Hsub' Hmore e He).
Qed.

End Induction.

(** *** What the entries hold *)

Lemma get_files_unfold fs rt structure kw :
  get_files fs rt structure kw =
  match rt with
  | RootPath path => get_files_path fs path structure kw
  | RootList [] => Raised (IndexError "list index out of range")
  | RootList (r :: rs) => get_files_path fs r (rs ++ structure) kw
  end.
Proof. reflexivity. Qed.

Lemma get_files_listed fs (rt : root_arg) structure kw es :
  get_files fs rt structure kw = Returned es →
  ∀ e, e ∈ es →
    isdir fs (root e) = true ∧
    ∃ names, listdir fs (root e) = Returned names ∧
             files e = path_join (root e) <$> names.
Proof.
  set (P := λ (_ : string) (_ : list string) (_ : kwargs) (e : entry),
              isdir fs (root e) = true ∧
              ∃ names, listdir fs (root e) = Returned names ∧
                       files e = path_join (root e) <$> names).
  assert (∀ structure r kw es, get_files_path fs r structure kw = Returned es →
            ∀ e, e ∈ es → P r structure kw e) as Hall.
  { intros s. apply get_files_path_entries; unfold P; simpl; eauto. }
  rewrite get_files_unfold. destruct rt as [path|[|r rs]]; [|done|]; apply Hall.
Qed.

(** X4.  Every entry that [get_files] returns describes a directory that
    exists: its root is a directory, and its files are the members of that
    directory, each joined to the root. *)
Theorem get_files_entries_listed fs (rt : root_arg) structure kw es :
  get_files fs rt structure kw = Returned es →
  ∀ e, e ∈ es →
    isdir fs (root e) = true ∧
    ∃ names, listdir fs (root e) = Returned names ∧
             files e = path_join (root e) <$> names.
Proof. apply get_files_listed. Qed.

Lemma get_files_entries_listed_witness :
  get_files small_fs (RootPath "/home") ["{student_id}"; "{assignment_id}"] ∅
  = Returned [Entry ["/home/s1/ps1/nb.ipynb"] "/home/s1/ps1"
                {[ "student_id" := "s1"; "assignment_id" := "ps1" ]}] ∧
  isdir small_fs "/home/s1/ps1" = true ∧
  ∃ names, listdir small_fs "/home/s1/ps1" = Returned names ∧
           ["/home/s1/ps1/nb.ipynb"] = path_join "/home/s1/ps1" <$> names.
Proof.
  assert (get_files small_fs (RootPath "/home")
            ["{student_id}"; "{assignment_id}"] ∅
          = Returned [Entry ["/home/s1/ps1/nb.ipynb"] "/home/s1/ps1"
                        {[ "student_id" := "s1"; "assignment_id" := "ps1" ]}])
    as Hrun by (vm_compute; reflexivity).
  split; [exact Hrun|].
  apply (get_files_entries_listed _ _ _ _ _ Hrun
           (Entry ["/home/s1/ps1/nb.ipynb"] "/home/s1/ps1"
              {[ "student_id" := "s1"; "assignment_id" := "ps1" ]})).
  apply list_elem_of_here.
Defined.

Lemma detail_names_cons seg rest :
  detail_names (seg :: rest) =
  if contains_format seg then strip_braces seg :: detail_names rest
  else detail_names rest.
Proof.
  unfold detail_names. rewrite filter_cons.
  destruct (contains_format seg); by case_decide.
Qed.

Lemma detail_names_app s1 s2 :
  detail_names (s1 ++ s2) = detail_names s1 ++ detail_names s2.
Proof. unfold detail_names. by rewrite filter_app, fmap_app. Qed.

Lemma get_files_path_recorded fs structure : ∀ rt kw es,
  get_files_path fs rt structure kw = Returned es →
  ∀ e, e ∈ es → recorded rt structure kw e.
Proof.
  apply get_files_path_entries; unfold recorded.
  - intros rt kw names _ _. simpl. split_and!; try done.
    by intros n ?%elem_of_nil.
  - intros rt seg rest kw e Hseg (Hnames & Hkw & Hroot).
    rewrite detail_names_cons, Hseg. split_and!; try done.
    intros Hnd. simpl. rewrite Hseg. by apply Hroot.
  - intros rt seg rest kw names f e Hseg _ _ _ (Hnames & Hkw & Hroot).
    rewrite detail_names_cons, Hseg.
    assert (strip_braces seg ∉ detail_names rest →
            details e !! strip_braces seg = Some f) as Hhere.
    { intros Hnot. by rewrite (Hkw _ Hnot), lookup_insert_eq. }
    split_and!.
    + intros n [->|Hn]%elem_of_cons; [|by apply Hnames].
      destruct (decide (strip_braces seg ∈ detail_names rest)) as [Hin|Hnot].
      * by apply Hnames.
      * rewrite (Hhere Hnot). by eexists.
    + intros k [Hne Hk]%not_elem_of_cons.
      by rewrite (Hkw _ Hk), lookup_insert_ne.
    + intros [Hnot Hnd]%NoDup_cons. simpl. rewrite Hseg.
      rewrite (Hhere Hnot). simpl. by apply Hroot.
Qed.

(** X5.  The details of an entry hold one name for every placeholder
    segment of the structure, the segment without its braces, and leave every
    other keyword argument as it was given. *)
Theorem get_files_details fs (rt : string) structure kw es :
  get_files fs (RootPath rt) structure kw = Returned es →
  ∀ e, e ∈ es →
    (∀ n, n ∈ detail_names structure → is_Some (details e !! n)) ∧
    (∀ k, k ∉ detail_names structure → details e !! k = kw !! k).
Proof.
  intros Hrun e He.
  destruct (get_files_path_recorded _ _ _ _ _ Hrun e He) as (? & ? & _).
  by split.
Qed.

(** X6.  The root of an entry can be read off its details: it is the
    root of the scan followed by the segments of the structure, each
    placeholder segment replaced by the name recorded for it.  This needs the
    placeholder segments to have different names, since a later one
    overwrites an earlier one of the same name. *)
Theorem get_files_root_instantiates fs (rt : string) structure kw es :
  get_files fs (RootPath rt) structure kw = Returned es →
  NoDup (detail_names structure) →
  ∀ e, e ∈ es → root e = instantiate (details e) rt structure.
Proof.
  intros Hrun Hnd e He.
  destruct (get_files_path_recorded _ _ _ _ _ Hrun e He) as (_ & _ & Hroot).
  by apply Hroot.
Qed.

Lemma get_files_details_witness :
  get_files small_fs (RootPath "/home") ["{student_id}"; "ps1"]
    {[ "nbgrader_step" := "submitted" ]}
  = Returned [Entry ["/home/s1/ps1/nb.ipynb"] "/home/s1/ps1"
                {[ "student_id" := "s1"; "nbgrader_step" := "submitted" ]}] ∧
  detail_names ["{student_id}"; "ps1"] = ["student_id"] ∧
  (∀ n, n ∈ ["student_id"] →
     is_Some (({[ "student_id" := "s1"; "nbgrader_step" := "submitted" ]}
               : kwargs) !! n)) ∧
  (∀ k, k ∉ ["student_id"] →
     ({[ "student_id" := "s1"; "nbgrader_step" := "submitted" ]} : kwargs) !! k
     = ({[ "nbgrader_step" := "submitted" ]} : kwargs) !! k).
Proof.
  assert (get_files small_fs (RootPath "/home") ["{student_id}"; "ps1"]
            {[ "nbgrader_step" := "submitted" ]}
          = Returned [Entry ["/home/s1/ps1/nb.ipynb"] "/home/s1/ps1"
                        {[ "student_id" := "s1";
                           "nbgrader_step" := "submitted" ]}]) as Hrun
    by (vm_compute; reflexivity).
  split; [exact Hrun|]. split; [reflexivity|].
  exact (get_files_details _ _ _ _ _ Hrun
           (Entry ["/home/s1/ps1/nb.ipynb"] "/home/s1/ps1"
              {[ "student_id" := "s1"; "nbgrader_step" := "submitted" ]})
           (list_elem_of_here _ _)).
Defined.

Lemma get_files_root_instantiates_witness :
  get_files small_fs (RootPath "/home") ["{student_id}"; "{assignment_id}"] ∅
  = Returned [Entry ["/home/s1/ps1/nb.ipynb"] "/home/s1/ps1"
                {[ "student_id" := "s1"; "assignment_id" := "ps1" ]}] ∧
  "/home/s1/ps1"
  = instantiate {[ "student_id" := "s1"; "assignment_id" := "ps1" ]}
      "/home" ["{student_id}"; "{assignment_id}"].
Proof.
  assert (get_files small_fs (RootPath "/home")
            ["{student_id}"; "{assignment_id}"] ∅
          = Returned [Entry ["/home/s1/ps1/nb.ipynb"] "/home/s1/ps1"
                        {[ "student_id" := "s1"; "assignment_id" := "ps1" ]}])
    as Hrun by (vm_compute; reflexivity).
  split; [exact Hrun|].
  assert (NoDup (detail_names ["{student_id}"; "{assignment_id}"])) as Hnd.
  { assert (detail_names ["{student_id}"; "{assignment_id}"]
            = ["student_id"; "assignment_id"]) as -> by reflexivity.
    apply NoDup_cons. split; [|apply NoDup_singleton].
    by intros [=]%list_elem_of_singleton. }
  exact (get_files_root_instantiates _ _ _ _ _ Hrun Hnd
           (Entry ["/home/s1/ps1/nb.ipynb"] "/home/s1/ps1"
              {[ "student_id" := "s1"; "assignment_id" := "ps1" ]})
           (list_elem_of_here _ _)).
Defined.

(** Two placeholder segments of the same name: the second overwrites what
    the first recorded, and the root cannot be read off the details any
    more. *)
Example get_files_same_name_twice :
  get_files small_fs (RootPath "/home") ["{a}"; "{a}"] ∅
  = Returned [Entry ["/home/s1/ps1/nb.ipynb"] "/home/s1/ps1" {[ "a" := "ps1" ]}] ∧
  instantiate {[ "a" := "ps1" ]} "/home" ["{a}"; "{a}"] = "/home/ps1/ps1".
Proof. split; vm_compute; reflexivity. Qed.

(** *** What the scanner raises *)

Lemma listdir_raises fs p e :
  path_exists fs p = true → listdir fs p = Raised e →
  e = NotADirectoryError p ∧ resolve fs p = Some File.
Proof.
  unfold path_exists, listdir.
  destruct (resolve fs p) as [[|es]|]; [|done..]. by intros _ [= <-].
Qed.

Lemma listdir_isdir fs p e : isdir fs p = true → listdir fs p ≠ Raised e.
Proof. unfold isdir, listdir. by destruct (resolve fs p) as [[|es]|]. Qed.

Lemma clashes_insert (kw : kwargs) d f :
  clashes (<[d := f]> kw) = true →
  (d = "self" ∨ d = "root" ∨ d = "structure") ∨ clashes kw = true.
Proof.
  destruct (decide (d = "self")) as [|H1]; [by auto|].
  destruct (decide (d = "root")) as [|H2]; [by auto|].
  destruct (decide (d = "structure")) as [|H3]; [by auto|].
  unfold clashes. rewrite !lookup_insert_ne by done. by right.
Qed.

Lemma get_files_path_raises fs structure : ∀ rt kw e,
  get_files_path fs rt structure kw = Raised e →
  detail_names structure ≠ [] ∧
  ((∃ p, e = NotADirectoryError p ∧ resolve fs p = Some File) ∨
   (∃ m, e = TypeError m ∧
         (clashes kw = true ∨
          ∃ n, n ∈ detail_names structure ∧
               (n = "self" ∨ n = "root" ∨ n = "structure")))).
Proof.
  induction structure as [|seg rest IH]; intros rt kw e; simpl.
  - destruct (isdir fs rt) eqn:Hdir; [|done].
    destruct (listdir fs rt) as [names|e'] eqn:Hls; [done|].
    by destruct (listdir_isdir fs rt e' Hdir).
  - rewrite detail_names_cons.
    destruct (contains_format seg) eqn:Hseg; simpl.
    2:{ intros Hrun. destruct (IH _ _ _ Hrun) as [Hne Hcases].
        by split. }
    intros Hrun. split; [done|]. revert Hrun.
    destruct (path_exists fs rt) eqn:Hex; [|done].
    destruct (listdir fs rt) as [names|e'] eqn:Hls; simpl.
    2:{ intros [= <-]. left. exists rt. by apply listdir_raises. }
    clear Hls.
    assert (∀ f, <[strip_braces seg := f]> kw = <[strip_braces seg := f]> kw)
      as Hkw by done.
    revert Hkw. generalize kw at 1 3 as kwc. intros kwc Hkw. revert kwc Hkw.
    induction names as [|f names IHnames]; intros kwc Hkw; [done|].
    rewrite Hkw.
    assert (∀ g, <[strip_braces seg := g]> (<[strip_braces seg := f]> kw)
                 = <[strip_braces seg := g]> kw) as Hkw'
      by (intros g; by rewrite insert_insert_eq).
    assert (∀ found : result (list entry),
              (found = Raised e →
               (∃ p, e = NotADirectoryError p ∧ resolve fs p = Some File) ∨
               (∃ m, e = TypeError m ∧
                  (clashes kw = true ∨
                   ∃ n, n ∈ strip_braces seg :: detail_names rest ∧
                        (n = "self" ∨ n = "root" ∨ n = "structure")))) →
              ∀ more,
              (more = Raised e →
               (∃ p, e = NotADirectoryError p ∧ resolve fs p = Some File) ∨
               (∃ m, e = TypeError m ∧
                  (clashes kw = true ∨
                   ∃ n, n ∈ strip_braces seg :: detail_names rest ∧
                        (n = "self" ∨ n = "root" ∨ n = "structure")))) →
              (x ← found; y ← more; Returned (x ++ y)) = Raised e →
               (∃ p, e = NotADirectoryError p ∧ resolve fs p = Some File) ∨
               (∃ m, e = TypeError m ∧
                  (clashes kw = true ∨
                   ∃ n, n ∈ strip_braces seg :: detail_names rest ∧
                        (n = "self" ∨ n = "root" ∨ n = "structure"))))
      as Hseq.
    { intros [found|e1] Hfound [more|e2] Hmore; simpl; try done;
        intros [= ->]; first [by apply Hfound | by apply Hmore]. }
    match goal with
    | |- mbind (λ _, mbind _ ?more) ?found = _ → _ =>
        apply (Hseq found); [|exact (IHnames _ Hkw')]
    end.
    destruct (isdir fs (path_join rt f)); [|done].
    destruct (clashes (<[strip_braces seg:=f]> kw)) eqn:Hclash.
    + intros [= <-]. right. eexists. split; [done|].
      apply clashes_insert in Hclash as [Hd|Hc]; [right|by left].
      exists (strip_braces seg). split; [apply list_elem_of_here|done].
    + intros Hrun. destruct (IH _ _ _ Hrun) as [_ [Hfile|(m & -> & Hm)]];
        [by left|right].
      exists m. split; [done|].
      destruct Hm as [Hc|(n & Hn & Hres)]; [congruence|].
      right. exists n. split; [by apply list_elem_of_further|done].
Qed.



(** A placeholder named [root] cannot be scanned. *)
Example get_files_reserved_name :
  get_files small_fs (RootPath "/home") ["{root}"] ∅
  = Raised (TypeError "get_files() got multiple values for argument").
Proof. vm_compute; reflexivity. Qed.

End WalkFacts.

(** ** Joining paths *)

Module JoinFacts.
Import Template StringFacts RegexFacts ScanFacts.

Lemma endswith_sep_app a b : b ≠ "" → endswith_sep (a +:+ b) = endswith_sep b.
Proof.
  intros Hb. induction a as [|c a IH]; [done|].
  rewrite append_cons, <-IH.
  destruct (a +:+ b) as [|c' ab] eqn:Hab; [|done].
  pose proof (append_empty _ _ Hab) as ->. simpl in Hab. by subst.
Qed.

Lemma path_join_empty_l b : path_join "" b = b.
Proof. unfold path_join. by destruct (startswith_sep b). Qed.

Lemma path_join_absolute a b : startswith_sep b = true → path_join a b = b.
Proof. unfold path_join. by intros ->. Qed.

Lemma path_join_relative a b :
  startswith_sep b = false →
  path_join a b
  = a +:+ (if bool_decide (a = "") || endswith_sep a then "" else "/") +:+ b.
Proof.
  unfold path_join. intros ->.
  by destruct (bool_decide (a = "") || endswith_sep a).
Qed.

(** [posixpath.join] is associative: joining segment by segment and joining
    a joined tail give the same path. *)
Lemma path_join_assoc a b c :
  path_join (path_join a b) c = path_join a (path_join b c).
Proof.
  destruct (startswith_sep c) eqn:Hc.
  { by rewrite !(path_join_absolute _ c). }
  destruct (decide (b = "")) as [->|Hb].
  { rewrite path_join_empty_l, !path_join_relative by done.
    destruct (decide (a = "")) as [->|Ha]; [done|].
    rewrite (bool_decide_eq_false_2 (a = "")) by done. simpl.
    destruct (endswith_sep a) eqn:Hend.
    - by rewrite !append_nil_r, Hend, orb_true_r.
    - rewrite bool_decide_eq_false_2 by (by intros ?%append_empty).
      rewrite endswith_sep_app by done. simpl. by rewrite !append_assoc. }
  destruct (startswith_sep b) eqn:Hbabs.
  { rewrite (path_join_absolute a b) by done.
    rewrite (path_join_absolute a (path_join b c)); [done|].
    rewrite path_join_relative by done. by rewrite startswith_sep_app. }
  rewrite (path_join_relative a b), (path_join_relative b c) by done.
  rewrite !path_join_relative by (done || by rewrite startswith_sep_app).
  set (s1 := if bool_decide (a = "") || endswith_sep a then "" else "/").
  assert (bool_decide (a +:+ s1 +:+ b = "") = false) as ->.
  { apply bool_decide_eq_false_2. intros Hab. apply Hb.
    apply append_empty in Hab as Ha. subst a. clear -Hab.
    simpl in Hab. subst s1. simpl in Hab. done. }
  rewrite <-(append_assoc a s1 b), endswith_sep_app by done.
  rewrite (bool_decide_eq_false_2 (b = "")) by done. simpl.
  by rewrite !append_assoc.
Qed.

Lemma foldl_path_join a x xs :
  foldl path_join (path_join a x) xs = path_join a (foldl path_join x xs).
Proof.
  revert x. induction xs as [|y ys IH]; intros x; [done|]. simpl.
  by rewrite path_join_assoc, IH.
Qed.

Lemma path_join_no_open a b :
  no_open a = true → no_open b = true → no_open (path_join a b) = true.
Proof.
  intros Ha Hb. unfold path_join, no_open in *.
  destruct (startswith_sep b); [done|].
  destruct (bool_decide (a = "") || endswith_sep a);
    rewrite ?forallb_append, Ha, ?Hb; simpl; by rewrite ?Hb.
Qed.

Lemma no_open_literal s : no_open s = true → contains_format s = false.
Proof. intros Hs. unfold contains_format. by rewrite re_search_no_open. Qed.

End JoinFacts.

(** ** Scanning a collapsed structure *)

Module MergeFacts.
Import Template Fs Scan Walk StringFacts RegexFacts ScanFacts CollapseFacts
  JoinFacts WalkFacts Examples.

(** *** Literal segments are joined to the root *)

Lemma get_files_path_literals fs lits : ∀ rt rest kw,
  Forall (λ seg, contains_format seg = false) lits →
  get_files_path fs rt (lits ++ rest) kw
  = get_files_path fs (foldl path_join rt lits) rest kw.
Proof.
  induction lits as [|seg lits IH]; intros rt rest kw Hlits; [done|].
  apply Forall_cons in Hlits as [Hseg Hlits]. simpl. rewrite Hseg. simpl.
  by apply IH.
Qed.

(** The scan of a structure depends on the rest of the structure only
    through the scans of the rest. *)
Lemma get_files_path_tail fs seg rest1 rest2 :
  (∀ rt kw, get_files_path fs rt rest1 kw = get_files_path fs rt rest2 kw) →
  ∀ rt kw, get_files_path fs rt (seg :: rest1) kw
           = get_files_path fs rt (seg :: rest2) kw.
Proof.
  intros Hrest rt kw. simpl.
  destruct (contains_format seg); simpl; [|apply Hrest].
  destruct (path_exists fs rt); [|done].
  destruct (listdir fs rt) as [names|]; [|done]. simpl.
  revert kw. induction names as [|f names IH]; intros kw; [done|].
  by rewrite Hrest, IH.
Qed.

Lemma join_group_no_open g :
  Forall (λ p, no_open p = true) g → no_open (join_group g) = true.
Proof.
  destruct g as [|x xs]; [done|]. simpl.
  intros [Hx Hxs]%Forall_cons. revert x Hx.
  induction Hxs as [|y ys Hy Hys IH]; intros x Hx; [done|]. simpl.
  apply IH. by apply path_join_no_open.
Qed.

Lemma get_files_path_groups fs (groups : list (list string)) :
  Forall good_group groups →
  Forall (Forall (λ p, contains_format p = false → no_open p = true)) groups →
  ∀ rest rt kw,
    get_files_path fs rt ((join_group <$> groups) ++ rest) kw
    = get_files_path fs rt (List.concat groups ++ rest) kw.
Proof.
  intros Hgood. induction Hgood as [|g groups [Hne Hone] Hgood IH];
    intros Hopen rest; [done|].
  apply Forall_cons in Hopen as [Hg Hopen].
  rewrite fmap_cons. simpl.
  destruct (decide (Forall (λ p, contains_format p = false) g)) as [Hlit|Hph].
  - intros rt kw. rewrite <-!app_assoc.
    rewrite (get_files_path_literals fs g) by done.
    assert (no_open (join_group g) = true) as Hjoin.
    { apply join_group_no_open. rewrite Forall_forall in Hg, Hlit.
      apply Forall_forall. intros p Hp. by apply Hg, Hlit. }
    simpl. rewrite (no_open_literal _ Hjoin). simpl.
    destruct g as [|x xs]; [done|]. simpl.
    rewrite foldl_path_join. by apply IH.
  - apply not_Forall_Exists in Hph; [|apply _].
    apply Exists_exists in Hph as (p & Hp & Hfmt).
    apply not_false_iff_true in Hfmt. rewrite (Hone p Hp Hfmt). simpl.
    apply get_files_path_tail. intros rt kw. by apply IH.
Qed.

Lemma elem_of_concat {A} (x : A) (l : list A) (ls : list (list A)) :
  x ∈ l → l ∈ ls → x ∈ List.concat ls.
Proof.
  intros Hx Hl. induction Hl as [l ls|l l' ls Hl IH]; simpl;
    apply elem_of_app; [by left | right; by apply IH].
Qed.

Lemma get_files_groups fs (groups : list (list string)) structure kw :
  Forall good_group groups →
  Forall (Forall (λ p, contains_format p = false → no_open p = true)) groups →
  get_files fs (RootList (join_group <$> groups)) structure kw
  = get_files fs (RootList (List.concat groups)) structure kw.
Proof.
  intros Hgood Hopen'.
  destruct groups as [|g groups]; [done|].
  apply Forall_cons in Hgood as [[Hne Hone] Hgood].
  apply Forall_cons in Hopen' as [Hg Hopen].
  destruct g as [|x xs]; [done|].
  rewrite !get_files_unfold, fmap_cons. simpl List.concat.
  cbn [app join_group]. rewrite <-app_assoc.
  destruct (decide (Forall (λ p, contains_format p = false) xs)) as [Hlit|Hph].
  - rewrite (get_files_path_literals fs xs) by done. simpl.
    by apply get_files_path_groups.
  - apply not_Forall_Exists in Hph; [|apply _].
    apply Exists_exists in Hph as (p & Hp & Hfmt).
    assert (x :: xs = [p]) as Hsingle.
    { apply Hone; [by apply list_elem_of_further|].
      by apply not_false_iff_true. }
    injection Hsingle as -> ->. by apply elem_of_nil in Hp.
Qed.

Section Merge.

Variable render : kwargs → string → string → option ascii → string → result string.
Variable full_split : string → list string.

Lemma collapse_scan fs (kw : kwargs) structure out :
  collapse_loop render kw [] structure = Returned out →
  ∃ the_parts,
    Forall2 (λ part the_part,
               call_maybe_format render part kw = Returned the_part)
            structure the_parts ∧
    (Forall (λ p, contains_format p = false → no_open p = true) the_parts →
     ∀ structure' kw',
       get_files fs (RootList out) structure' kw'
       = get_files fs (RootList the_parts) structure' kw').
Proof.
  intros Hloop.
  destruct (collapse_loop_inv _ _ _ [] out [] Hloop)
    as (the_parts & groups & Hall & -> & Hgood & _ & Hcat);
    [done | constructor | apply no_adjacent_nil |].
  simpl in Hcat. subst the_parts.
  exists (List.concat groups). split; [done|].
  intros Hopen structure' kw'. apply get_files_groups; [done|].
  apply Forall_forall. intros g Hg. apply Forall_forall. intros p Hp.
  rewrite Forall_forall in Hopen. apply Hopen.
  by apply (elem_of_concat p g).
Qed.

Lemma formatted_parts_unique (kw : kwargs) structure : ∀ parts1 parts2,
  Forall2 (λ part the_part,
             call_maybe_format render part kw = Returned the_part)
          structure parts1 →
  Forall2 (λ part the_part,
             call_maybe_format render part kw = Returned the_part)
          structure parts2 →
  parts1 = parts2.
Proof.
  induction structure as [|part structure IH]; intros parts1 parts2 H1 H2.
  - apply Forall2_nil_inv_l in H1, H2. by subst.
  - apply Forall2_cons_inv_l in H1 as (x1 & l1 & Hx1 & H1 & ->).
    apply Forall2_cons_inv_l in H2 as (x2 & l2 & Hx2 & H2 & ->).
    rewrite Hx1 in Hx2. injection Hx2 as <-. f_equal. by apply IH.
Qed.

(** X8.  Joining the neighbouring literal parts into one segment does
    not change what the scanner finds: the scan of the list that
    [get_directory_structure] returns is the scan of the formatted parts,
    provided that the formatted parts without placeholder hold no opening
    brace (two such parts could otherwise join into a placeholder). *)
Theorem get_files_merged_parts fs directory_structure (kw : kwargs) out
    the_parts structure kw' :
  get_directory_structure render full_split directory_structure kw
    = Returned out →
  Forall2 (λ part the_part,
             call_maybe_format render part kw = Returned the_part)
          (full_split directory_structure) the_parts →
  Forall (λ p, contains_format p = false → no_open p = true) the_parts →
  get_files fs (RootList out) structure kw'
  = get_files fs (RootList the_parts) structure kw'.
Proof.
  intros Hout Hall Hopen.
  destruct (collapse_scan fs kw _ _ Hout) as (the_parts' & Hall' & Hsame).
  rewrite (formatted_parts_unique _ _ _ _ Hall Hall') in *. by apply Hsame.
Qed.

End Merge.

Lemma get_files_merged_parts_witness :
  get_directory_structure render_plain_only split_slash
    "./{student_id}/ps1/." {[ "assignment_id" := "ps1" ]}
  = Returned ["."; "{student_id}"; "ps1/."] ∧
  get_files small_fs (RootList ["."; "{student_id}"; "ps1/."]) [] ∅
  = get_files small_fs (RootList ["."; "{student_id}"; "ps1"; "."]) [] ∅ ∧
  get_files small_fs (RootList ["."; "{student_id}"; "ps1"; "."]) [] ∅
  = Returned [Entry ["./s1/ps1/./nb.ipynb"] "./s1/ps1/."
                {[ "student_id" := "s1" ]}].
Proof.
  assert (get_directory_structure render_plain_only split_slash
            "./{student_id}/ps1/." {[ "assignment_id" := "ps1" ]}
          = Returned ["."; "{student_id}"; "ps1/."]) as Hrun
    by (vm_compute; reflexivity).
  split; [exact Hrun|]. split; [|vm_compute; reflexivity].
  apply (get_files_merged_parts render_plain_only split_slash small_fs
           _ _ _ _ _ _ Hrun).
  - assert (split_slash "./{student_id}/ps1/." = ["."; "{student_id}"; "ps1"; "."])
      as -> by reflexivity.
    repeat constructor; vm_compute; reflexivity.
  - repeat constructor; by vm_compute.
Defined.

(** Without the proviso the two scans differ: the parts [x{] and [y}] hold
    no placeholder, and joined they are the placeholder segment [x{/y}]. *)
Example get_files_merged_braces :
  get_directory_structure render_plain_only split_slash "r/{a}/x{{/y}}" ∅
  = Returned ["r"; "{a}"; "x{/y}"] ∧
  get_files (Filesystem (Dir [("r", Dir [("s", Dir [("t", Dir [])])])]) [])
    (RootList ["r"; "{a}"; "x{/y}"]) [] ∅
  = Returned [Entry [] "r/s/t" {[ "a" := "s"; "x{/y" := "t" ]}] ∧
  get_files (Filesystem (Dir [("r", Dir [("s", Dir [("t", Dir [])])])]) [])
    (RootList ["r"; "{a}"; "x{"; "y}"]) [] ∅
  = Returned [].
Proof. split; [|split]; vm_compute; reflexivity. Qed.

End MergeFacts.

(** ** The directories that match *)

Module MatchFacts.
Import Template Fs Scan Walk Match StringFacts WalkFacts Examples.

Lemma listdir_exists fs p names :
  listdir fs p = Returned names → path_exists fs p = true.
Proof. unfold listdir, path_exists. by destruct (resolve fs p) as [[|es]|]. Qed.

Lemma get_files_path_sound fs structure : ∀ rt kw es,
  get_files_path fs rt structure kw = Returned es →
  ∀ e, e ∈ es → matches fs rt structure (root e).
Proof.
  apply (get_files_path_entries fs (λ rt structure _ e,
           matches fs rt structure (root e))).
  - intros rt kw names Hdir _. by split.
  - intros rt seg rest kw e Hseg Hrest. simpl. by rewrite Hseg.
  - intros rt seg rest kw names f e Hseg Hls Hf Hdir Hrest. simpl.
    rewrite Hseg. by exists names, f.
Qed.

Lemma get_files_path_complete fs structure : ∀ rt kw es path,
  get_files_path fs rt structure kw = Returned es →
  matches fs rt structure path → ∃ e, e ∈ es ∧ root e = path.
Proof.
  induction structure as [|seg rest IH]; intros rt kw es path; simpl.
  - intros Hrun [Hdir ->]. rewrite Hdir in Hrun.
    destruct (listdir fs rt) as [names|]; [|done]. injection Hrun as <-.
    eexists. split; [apply list_elem_of_here|done].
  - destruct (contains_format seg) eqn:Hseg; simpl; [|by apply IH].
    intros Hrun (names & f & Hls & Hf & Hdir & Hmatch). revert Hrun.
    rewrite (listdir_exists _ _ _ Hls), Hls. simpl. clear Hls.
    assert (∀ g, <[strip_braces seg := g]> kw = <[strip_braces seg := g]> kw)
      as Hkw by done.
    revert Hkw. generalize kw at 1 3 as kwc. intros kwc Hkw. revert kwc Hkw es.
    induction names as [|g names IHnames]; intros kwc Hkw es;
      [by apply elem_of_nil in Hf|].
    rewrite Hkw.
    assert (∀ h, <[strip_braces seg := h]> (<[strip_braces seg := g]> kw)
                 = <[strip_braces seg := h]> kw) as Hkw'
      by (intros h; by rewrite insert_insert_eq).
    match goal with
    | |- mbind (λ _, mbind _ ?more) ?found = _ → _ =>
        destruct found as [xs|] eqn:Hfound; [|done];
        destruct more as [ys|] eqn:Hmore; [|done]
    end.
    simpl. intros [= <-].
    apply elem_of_cons in Hf as [->|Hf].
    + rewrite Hdir in Hfound.
      destruct (clashes (<[strip_braces seg:=g]> kw)); [done|].
      destruct (IH _ _ _ _ Hfound Hmatch) as (e & He & Hroot).
      exists e. split; [|done]. apply elem_of_app. by left.
    + destruct (IHnames Hf _ Hkw' ys Hmore) as (e & He & Hroot).
      exists e. split; [|done]. apply elem_of_app. by right.
Qed.

(** X9.  [get_files] finds exactly the directories that match the
    structure: when it returns, a path is the root of one of its entries
    if and only if it matches. *)
Theorem get_files_roots_match fs (rt : string) structure kw es :
  get_files fs (RootPath rt) structure kw = Returned es →
  ∀ path, (∃ e, e ∈ es ∧ root e = path) ↔ matches fs rt structure path.
Proof.
  intros Hrun path. split.
  - intros (e & He & <-). by eapply get_files_path_sound.
  - by eapply get_files_path_complete.
Qed.

Lemma get_files_roots_match_witness :
  get_files small_fs (RootPath "/home") ["{student_id}"; "ps1"] ∅
  = Returned [Entry ["/home/s1/ps1/nb.ipynb"] "/home/s1/ps1"
                {[ "student_id" := "s1" ]}] ∧
  matches small_fs "/home" ["{student_id}"; "ps1"] "/home/s1/ps1".
Proof.
  assert (get_files small_fs (RootPath "/home") ["{student_id}"; "ps1"] ∅
          = Returned [Entry ["/home/s1/ps1/nb.ipynb"] "/home/s1/ps1"
                        {[ "student_id" := "s1" ]}]) as Hrun
    by (vm_compute; reflexivity).
  split; [exact Hrun|].
  apply (get_files_roots_match _ _ _ _ _ Hrun "/home/s1/ps1").
  eexists. split; [apply list_elem_of_here|done].
Defined.

End MatchFacts.

(** ** Grouping *)

Module GroupFacts.
Import Scan Group Examples.

Lemma first_seen_elem_of x l : x ∈ first_seen l ↔ x ∈ l.
Proof.
  induction l as [|y l IH]; [done|]. simpl.
  rewrite !elem_of_cons, list_elem_of_filter, IH.
  destruct (decide (x = y)) as [->|Hne]; [by split; left|].
  split; [intros [?|[_ ?]]; by auto | intros [?|?]; by auto].
Qed.

Lemma first_seen_snoc l v :
  first_seen (l ++ [v]) = if decide (v ∈ l) then first_seen l
                          else first_seen l ++ [v].
Proof.
  induction l as [|x l IH]; [done|]. simpl. rewrite IH.
  destruct (decide (v ∈ l)) as [Hin|Hnot].
  - by rewrite (decide_True (P := v ∈ x :: l)) by (by apply list_elem_of_further).
  - rewrite filter_app. destruct (decide (v = x)) as [->|Hne].
    + rewrite (decide_True (P := x ∈ x :: l)) by apply list_elem_of_here.
      rewrite filter_cons_False, filter_nil, app_nil_r; [done|]. by intros ?.
    + rewrite (decide_False (P := v ∈ x :: l))
        by (by intros [?|?]%elem_of_cons).
      by rewrite filter_cons_True, filter_nil by done.
Qed.

Lemma first_seen_NoDup l : NoDup (first_seen l).
Proof.
  induction l as [|x l IH]; [constructor|]. simpl.
  apply NoDup_cons. split; [|by apply NoDup_filter].
  rewrite list_elem_of_filter. by intros [? _].
Qed.

Section GroupFacts.

Context {item : Type}.
Variable item_details : item → option kwargs.

Local Abbreviation group_of key entries :=
  (λ v, (v, filter (λ x, detail item item_details key x = Some v) entries)).

Lemma group_other key value x (entries : list item) w :
  detail item item_details key x = Some value → w ≠ value →
  group_of key (entries ++ [x]) w = group_of key entries w.
Proof.
  intros Hx Hw. simpl. f_equal.
  rewrite filter_app, filter_cons_False, filter_nil, app_nil_r; [done|].
  rewrite Hx. by intros [= ->].
Qed.

Lemma group_others key value x (entries : list item) (vs : list string) :
  detail item item_details key x = Some value → value ∉ vs →
  group_of key (entries ++ [x]) <$> vs = group_of key entries <$> vs.
Proof.
  intros Hx. induction vs as [|w vs IH]; [done|].
  intros [Hw Hvs]%not_elem_of_cons. rewrite !fmap_cons, IH by done.
  by rewrite (group_other key value) by done.
Qed.

Lemma append_to_present key value x (entries : list item) (vs : list string) :
  detail item item_details key x = Some value →
  NoDup vs → value ∈ vs →
  append_to item value x (group_of key entries <$> vs)
  = group_of key (entries ++ [x]) <$> vs.
Proof.
  intros Hx. induction vs as [|v vs IH]; [by intros _ ?%elem_of_nil|].
  intros [Hv Hnd]%NoDup_cons Hin. rewrite !fmap_cons. cbn [append_to].
  case_bool_decide as Heq.
  - subst v. rewrite filter_app, filter_cons_True, filter_nil by done.
    f_equal. symmetry. by apply (group_others key value).
  - apply elem_of_cons in Hin as [->|Hin]; [done|].
    rewrite IH by done. f_equal. f_equal.
    rewrite filter_app, filter_cons_False, filter_nil, app_nil_r; [done|].
    rewrite Hx. by intros [= ->].
Qed.

Lemma append_to_absent key value x (entries : list item) (vs : list string) :
  detail item item_details key x = Some value →
  value ∉ vs →
  append_to item value x (group_of key entries <$> vs)
  = (group_of key (entries ++ [x]) <$> vs) ++ [(value, [x])].
Proof.
  intros Hx. induction vs as [|v vs IH]; [done|].
  intros [Hv Hvs]%not_elem_of_cons. rewrite !fmap_cons. cbn [append_to].
  rewrite bool_decide_eq_false_2 by done. rewrite IH by done. simpl.
  f_equal. f_equal.
  rewrite filter_app, filter_cons_False, filter_nil, app_nil_r; [done|].
  rewrite Hx. by intros [= ->].
Qed.

Lemma filter_absent key value (entries : list item) :
  value ∉ omap (detail item item_details key) entries →
  filter (λ x, detail item item_details key x = Some value) entries = [].
Proof.
  induction entries as [|y entries IH]; [done|]. simpl.
  destruct (detail item item_details key y) as [w|] eqn:Hy.
  - intros [Hw Hrest]%not_elem_of_cons.
    rewrite filter_cons_False by (rewrite Hy; by intros [= ->]). by apply IH.
  - intros Hrest. rewrite filter_cons_False by (by rewrite Hy). by apply IH.
Qed.

(** X10.  [group_by] returns one group for every value that some entry
    holds under the key, in the order in which the values are first seen;
    the group of a value is the list of the entries that hold it, in their
    order.  An entry without details or without the key is in no group. *)
Theorem group_by_groups (key : string) (entries : list item) :
  group_by item item_details key entries
  = (λ v, (v, filter (λ x, detail item item_details key x = Some v) entries))
    <$> first_seen (omap (detail item item_details key) entries).
Proof.
  induction entries as [|x entries IH] using rev_ind; [done|].
  unfold group_by in *. rewrite foldl_app. simpl. rewrite IH.
  rewrite omap_app. simpl.
  destruct (detail item item_details key x) as [value|] eqn:Hx; simpl.
  - rewrite first_seen_snoc. case_decide as Hin.
    + apply append_to_present; [done|apply first_seen_NoDup|].
      by apply first_seen_elem_of.
    + rewrite append_to_absent; [|done|by rewrite first_seen_elem_of].
      rewrite fmap_app. simpl. do 3 f_equal.
      rewrite filter_app, filter_absent, filter_cons_True, filter_nil; done.
  - rewrite app_nil_r. apply map_ext_in. intros v _. simpl. f_equal.
    rewrite filter_app, filter_cons_False, filter_nil, app_nil_r; [done|].
    by rewrite Hx.
Qed.

End GroupFacts.

(** The entries of three scans, grouped by student: the entry without
    student is left out. *)
Example group_by_students :
  group_by entry (λ e, Some (details e)) "student_id"
    [Entry [] "a" {[ "student_id" := "s2" ]};
     Entry [] "b" {[ "assignment_id" := "ps1" ]};
     Entry [] "c" {[ "student_id" := "s1" ]};
     Entry [] "d" {[ "student_id" := "s2" ]}]
  = [("s2", [Entry [] "a" {[ "student_id" := "s2" ]};
             Entry [] "d" {[ "student_id" := "s2" ]}]);
     ("s1", [Entry [] "c" {[ "student_id" := "s1" ]}])].
Proof. vm_compute; reflexivity. Qed.

End GroupFacts.

(** ** Structures of the usual shape *)

Module ResolverFacts.
Import Template Fs Scan StringFacts RegexFacts TemplateFacts CollapseFacts
  Examples.

Section ResolverFacts.

Variable render : kwargs → string → string → option ascii → string → result string.
Hypothesis render_plain : ∀ kw v, render kw v "" None "" = Returned v.
Variable full_split : string → list string.

(** X11.  On a directory structure whose parts are segments of the usual
    shape, and without a keyword named [string], [get_directory_structure]
    raises nothing: it returns the parts, every bound placeholder replaced
    by its value, cut into groups of consecutive parts that are each joined
    into one path. *)
Theorem get_directory_structure_segments directory_structure (kw : kwargs) ts :
  full_split directory_structure = text <$> ts →
  Forall (λ t, well_formed t = true) ts →
  kw !! "string" = None →
  ∃ out groups,
    get_directory_structure render full_split directory_structure kw
      = Returned out ∧
    out = join_group <$> groups ∧
    List.concat groups = fill kw <$> ts ∧
    Forall good_group groups ∧
    no_adjacent_literals out.
Proof.
  intros Hsplit Hts Hkw.
  destruct (get_directory_structure_returns render render_plain full_split kw
              directory_structure) as [out Hout]; [|done|].
  { rewrite Hsplit. apply Forall_fmap. eapply Forall_impl; [exact Hts|].
    intros t Ht. by exists t. }
  exists out. unfold get_directory_structure in *.
  destruct (collapse_loop_inv _ _ _ [] out [] Hout)
    as (the_parts & groups & Hall & -> & Hgood & Hadj & Hcat);
    [done | constructor | apply no_adjacent_nil |].
  exists groups. split_and!; try done.
  simpl in Hcat. rewrite Hcat. rewrite Hsplit in Hall.
  clear -Hall Hts Hkw render_plain. revert the_parts Hall.
  induction Hts as [|t ts Ht Hts IH]; intros the_parts Hall.
  - by apply Forall2_nil_inv_l in Hall.
  - rewrite fmap_cons in Hall.
    apply Forall2_cons_inv_l in Hall as (x & xs & Hx & Hall & ->).
    unfold call_maybe_format in Hx.
    rewrite bool_decide_eq_false_2 in Hx by (rewrite Hkw; by intros [? ?]).
    rewrite (maybe_format_text render render_plain) in Hx by done.
    injection Hx as <-. rewrite fmap_cons. f_equal. by apply IH.
Qed.

End ResolverFacts.

Lemma get_directory_structure_segments_witness :
  ∃ out groups,
    get_directory_structure render_plain_only
      (λ _, ["."; "{course_id}"; "{assignment_id}"; "feedback"])
      "./{course_id}/{assignment_id}/feedback" {[ "assignment_id" := "ps1" ]}
      = Returned out ∧
    out = join_group <$> groups ∧
    List.concat groups
    = fill {[ "assignment_id" := "ps1" ]}
        <$> [Segment "." []; Segment "" [("course_id", "")];
             Segment "" [("assignment_id", "")]; Segment "feedback" []] ∧
    Forall good_group groups ∧
    no_adjacent_literals out.
Proof.
  apply (get_directory_structure_segments render_plain_only
           render_plain_only_plain
           (λ _, ["."; "{course_id}"; "{assignment_id}"; "feedback"])
           "./{course_id}/{assignment_id}/feedback"
           {[ "assignment_id" := "ps1" ]}
           [Segment "." []; Segment "" [("course_id", "")];
            Segment "" [("assignment_id", "")]; Segment "feedback" []]);
    [reflexivity | by repeat constructor | reflexivity].
Defined.

(** A keyword named [string] cannot be passed on to [maybe_format]. *)
Example get_directory_structure_string render :
  get_directory_structure render split_slash "a/{string}" {[ "string" := "x" ]}
  = Raised (TypeError "maybe_format() got multiple values for argument 'string'").
Proof. reflexivity. Qed.

End ResolverFacts.

(** ** The local directories *)

Module LayoutFacts.
Import Template Fs Scan Walk Layout StringFacts RegexFacts FormatFacts
  TemplateFacts CollapseFacts ScanFacts JoinFacts WalkFacts MergeFacts Examples.

(** *** Stripping the braces of a placeholder *)

Lemma string_rev_app a b : string_rev (a +:+ b) = string_rev b +:+ string_rev a.
Proof.
  induction a as [|c a IH]; simpl; [by rewrite append_nil_r|].
  by rewrite IH, append_assoc.
Qed.

Lemma string_rev_involutive a : string_rev (string_rev a) = a.
Proof.
  induction a as [|c a IH]; [done|]. simpl.
  by rewrite string_rev_app, IH.
Qed.

Lemma forallb_rev p a : string_forallb p (string_rev a) = string_forallb p a.
Proof.
  induction a as [|c a IH]; [done|]. simpl.
  rewrite forallb_append, IH. simpl. by rewrite andb_true_r, andb_comm.
Qed.

Lemma lstrip_braces_none s :
  string_forallb (λ c, negb (is_brace c)) s = true → lstrip_braces s = s.
Proof.
  destruct s as [|c s]; [done|]. simpl.
  intros [Hc _]%andb_true_iff. by apply negb_true_iff in Hc as ->.
Qed.

Lemma strip_braces_hole n :
  plain_name n = true → strip_braces (String "{" (n +:+ "}")) = n.
Proof.
  intros (Hne & Hplain & _)%plain_name_inv.
  assert (string_forallb (λ c, negb (is_brace c)) n = true) as Hfree.
  { revert Hplain. apply forallb_impl. intros c. unfold is_special.
    by destruct (is_brace c). }
  unfold strip_braces, rstrip_braces.
  change (lstrip_braces (String "{" (n +:+ "}")))
    with (lstrip_braces (n +:+ "}")).
  assert (lstrip_braces (n +:+ "}") = n +:+ "}") as ->.
  { destruct n as [|c n]; [done|]. simpl in *.
    apply andb_true_iff in Hfree as [Hc _].
    by apply negb_true_iff in Hc as ->. }
  rewrite string_rev_app. simpl.
  rewrite lstrip_braces_none by (by rewrite forallb_rev).
  apply string_rev_involutive.
Qed.

(** *** Parts and segments *)

Lemma part_segment_text p : text (part_segment p) = part_text p.
Proof. destruct p as [l|n]; unfold text; simpl; [apply append_nil_r | done]. Qed.

Lemma part_segment_fill kw p : fill kw (part_segment p) = part_fill kw p.
Proof.
  destruct p as [l|n]; unfold fill; simpl; by rewrite ?append_nil_r.
Qed.

Lemma part_segment_ok p : part_ok p = true → well_formed (part_segment p) = true.
Proof.
  destruct p as [l|n]; unfold well_formed; simpl; intros ->; done.
Qed.

Lemma part_fill_no_open (kw : kwargs) p :
  part_ok p = true →
  (∀ n v, kw !! n = Some v → no_open v = true) →
  contains_format (part_fill kw p) = false → no_open (part_fill kw p) = true.
Proof.
  destruct p as [l|n]; simpl; intros Hok Hkw.
  - intros _. by apply brace_free_no_open.
  - unfold subst. destruct (kw !! n) as [v|] eqn:Hv; simpl.
    + intros _. by eapply Hkw.
    + apply plain_name_inv in Hok as Hinv. destruct Hinv as (Hne & _ & _).
      unfold contains_format.
      rewrite (re_search_hole_bos n "" Hne (plain_name_no_close n Hok)).
      done.
Qed.

Lemma detail_names_parts (kw : kwargs) ps :
  Forall (λ p, part_ok p = true) ps →
  (∀ n v, kw !! n = Some v → no_open v = true) →
  detail_names (part_fill kw <$> ps) = unbound kw ps.
Proof.
  intros Hps Hkw. induction Hps as [|p ps Hp Hps IH]; [done|].
  rewrite fmap_cons, detail_names_cons, IH. unfold unbound at 2. simpl.
  destruct p as [l|n]; simpl.
  - by rewrite (no_open_literal l) by (by apply brace_free_no_open).
  - unfold subst. destruct (kw !! n) as [v|] eqn:Hv; simpl.
    + by rewrite (no_open_literal v) by (by eapply Hkw).
    + apply plain_name_inv in Hp as Hinv. destruct Hinv as (Hne & _ & _).
      unfold contains_format at 1.
      rewrite (re_search_hole_bos n "" Hne (plain_name_no_close n Hp)).
      by rewrite strip_braces_hole.
Qed.

Section LayoutFacts.

Variable render : kwargs → string → string → option ascii → string → result string.
Hypothesis render_plain : ∀ kw v, render kw v "" None "" = Returned v.
Variable full_split : string → list string.
Variable fs : filesystem.

Lemma call_maybe_format_part (kw : kwargs) p :
  part_ok p = true → kw !! "string" = None →
  call_maybe_format render (part_text p) kw = Returned (part_fill kw p).
Proof.
  intros Hok Hkw. unfold call_maybe_format.
  rewrite bool_decide_eq_false_2 by (rewrite Hkw; by intros [? ?]).
  rewrite <-part_segment_text, <-part_segment_fill.
  apply (maybe_format_text render render_plain). by apply part_segment_ok.
Qed.

(** The scan of a structure of the usual shape is the scan of its parts,
    the bound placeholders filled in. *)
Lemma scan_parts structure (kw : kwargs) ps :
  full_split structure = part_text <$> ps →
  Forall (λ p, part_ok p = true) ps →
  kw !! "string" = None →
  (∀ n v, kw !! n = Some v → no_open v = true) →
  scan render full_split fs structure kw
  = get_files fs (RootList (part_fill kw <$> ps)) [] ∅.
Proof.
  intros Hsplit Hps Hstring Hkw. unfold scan.
  destruct (get_directory_structure_returns render render_plain full_split kw
              structure) as [out Hout]; [|done|].
  { rewrite Hsplit. apply Forall_fmap. eapply Forall_impl; [exact Hps|].
    intros p Hp. exists (part_segment p).
    split; [by apply part_segment_ok | by rewrite part_segment_text]. }
  rewrite Hout. simpl. unfold get_directory_structure in Hout.
  destruct (collapse_scan render fs kw _ _ Hout) as (the_parts & Hall & Hsame).
  assert (the_parts = part_fill kw <$> ps) as ->.
  { rewrite Hsplit in Hall. clear -Hall Hps Hstring render_plain.
    revert the_parts Hall.
    induction Hps as [|p ps Hp Hps IH]; intros the_parts Hall.
    - by apply Forall2_nil_inv_l in Hall.
    - rewrite fmap_cons in Hall.
      apply Forall2_cons_inv_l in Hall as (x & xs & Hx & Hall & ->).
      rewrite call_maybe_format_part in Hx by done. injection Hx as <-.
      rewrite fmap_cons. f_equal. by apply IH. }
  apply Hsame. apply Forall_fmap. eapply Forall_impl; [exact Hps|].
  intros p Hp. simpl. by apply part_fill_no_open.
Qed.

(** What the details of the entries of such a scan hold, when the first
    part is a literal: the names of the placeholders that are not bound. *)
Lemma scan_details structure (kw : kwargs) r ps es :
  full_split structure = part_text <$> (Literal r :: ps) →
  Forall (λ p, part_ok p = true) (Literal r :: ps) →
  kw !! "string" = None →
  (∀ n v, kw !! n = Some v → no_open v = true) →
  scan render full_split fs structure kw = Returned es →
  ∀ e, e ∈ es → ∀ k, is_Some (details e !! k) ↔ k ∈ unbound kw ps.
Proof.
  intros Hsplit Hps Hstring Hkw.
  rewrite (scan_parts structure kw _ Hsplit Hps Hstring Hkw).
  rewrite get_files_unfold, fmap_cons, app_nil_r. simpl part_fill.
  apply Forall_cons in Hps as [_ Hps].
  intros Hrun e He k.
  destruct (get_files_path_recorded _ _ _ _ _ Hrun e He) as (Hin & Hout & _).
  rewrite detail_names_parts in Hin, Hout by done.
  split.
  - intros Hsome. destruct (decide (k ∈ unbound kw ps)) as [|Hnot]; [done|].
    rewrite (Hout k Hnot), lookup_empty in Hsome. by destruct Hsome.
  - apply Hin.
Qed.

(** The scan of a structure of the usual shape, all of whose placeholders
    are bound, is the listing of one directory. *)
Lemma scan_bound structure (kw : kwargs) p ps :
  full_split structure = part_text <$> (p :: ps) →
  Forall (λ p, part_ok p = true) (p :: ps) →
  kw !! "string" = None →
  (∀ n v, kw !! n = Some v → no_open v = true) →
  (∀ n, n ∈ placeholders (p :: ps) → is_Some (kw !! n)) →
  scan render full_split fs structure kw
  = get_files fs (RootPath (join_group (part_fill kw <$> (p :: ps)))) [] ∅.
Proof.
  intros Hsplit Hps Hstring Hkw Hbound.
  rewrite (scan_parts structure kw _ Hsplit Hps Hstring Hkw).
  rewrite !get_files_unfold, fmap_cons. simpl join_group.
  apply get_files_path_literals.
  apply Forall_cons in Hps as [_ Hps]. apply Forall_fmap.
  apply Forall_forall. intros q Hq. simpl.
  rewrite Forall_forall in Hps.
  destruct q as [l|n]; simpl.
  - apply no_open_literal, brace_free_no_open. by apply (Hps (Literal l)).
  - destruct (Hbound n) as [v Hv].
    { unfold placeholders. apply list_elem_of_omap.
      exists (Placeholder n). split; [by apply list_elem_of_further|done]. }
    unfold subst. rewrite Hv. simpl. apply no_open_literal. by eapply Hkw.
Qed.

Lemma str_format_part (kw : kwargs) p :
  part_ok p = true →
  (∀ n, p = Placeholder n → is_Some (kw !! n)) →
  str_format render (part_text p) kw = Returned (part_fill kw p).
Proof.
  intros Hok Hbound. unfold str_format.
  rewrite <-part_segment_text, <-part_segment_fill. unfold text, fill.
  apply part_segment_ok in Hok as Hwf. unfold well_formed in Hwf.
  apply andb_true_iff in Hwf as [[Hl Hhs]%andb_true_iff Hsep].
  apply (format_loop_holes render render_plain); [lia|done|done|].
  intros n Hn. destruct p as [l|m]; simpl in Hn; [by apply elem_of_nil in Hn|].
  apply list_elem_of_singleton in Hn as ->.
  destruct (Hbound m eq_refl) as [v Hv]. unfold subst. by rewrite Hv.
Qed.

Lemma mapM_str_format (kw : kwargs) ps :
  Forall (λ p, part_ok p = true) ps →
  (∀ n, n ∈ placeholders ps → is_Some (kw !! n)) →
  mapM (λ x, str_format render x kw) (part_text <$> ps)
  = Returned (part_fill kw <$> ps).
Proof.
  intros Hps. induction Hps as [|p ps Hp Hps IH]; intros Hbound; [done|].
  rewrite !fmap_cons. simpl. rewrite str_format_part; [|done|].
  2:{ intros n ->. apply Hbound. unfold placeholders. simpl.
      apply list_elem_of_here. }
  simpl. rewrite IH; [done|].
  intros n Hn. apply Hbound. unfold placeholders in *.
  destruct p; simpl; [done|by apply list_elem_of_further].
Qed.

End LayoutFacts.

(** *** The course directory and the assignment directory *)

Section Directories.

Variable render : kwargs → string → string → option ascii → string → result string.
Hypothesis render_plain : ∀ kw v, render kw v "" None "" = Returned v.
Variable full_split : string → list string.
Variable fs : filesystem.
Variable coursedir_root : string.
Variable directory_structure : string.
Variable submitted_directory : string.
Variable feedback_directory : string.
Variable autograded_directory : string.
Variable release_directory : string.
Variable source_directory : string.
Variable assignment_dir : string.
Variable path_includes_course : bool.

Lemma course_kwargs_string step sid aid :
  course_kwargs step sid aid !! "string" = None.
Proof.
  unfold course_kwargs. destruct sid, aid;
    by rewrite ?lookup_insert_ne, ?lookup_singleton_ne.
Qed.

Lemma assignment_kwargs_string cid aid :
  assignment_kwargs cid aid !! "string" = None.
Proof.
  unfold assignment_kwargs. destruct cid, aid;
    by rewrite ?lookup_insert_ne, ?lookup_empty.
Qed.



Lemma course_kwargs_all step sid aid :
  course_kwargs step (Some sid) (Some aid)
  = {[ "nbgrader_step" := step; "student_id" := sid; "assignment_id" := aid ]}.
Proof.
  unfold course_kwargs. rewrite <-!insert_empty.
  rewrite (insert_insert_ne _ "assignment_id" "nbgrader_step") by done.
  by rewrite (insert_insert_ne _ "student_id" "nbgrader_step") by done.
Qed.

(** X14.  For a known step, student and assignment, [get_course_dir]
    lists the directory that [construct_course_dir] names: on a directory
    structure made of literal parts and of placeholders for the step, the
    student and the assignment, filled with values without opening brace. *)
Theorem construct_course_dir_scanned nbgrader_step student_id assignment_id
    p ps :
  full_split (path_join coursedir_root directory_structure)
    = part_text <$> (p :: ps) →
  Forall (λ p, part_ok p = true) (p :: ps) →
  (∀ n, n ∈ placeholders (p :: ps) →
        n ∈ ["nbgrader_step"; "student_id"; "assignment_id"]) →
  no_open nbgrader_step = true → no_open student_id = true →
  no_open assignment_id = true →
  ∃ path,
    construct_course_dir render full_split coursedir_root directory_structure
      nbgrader_step student_id assignment_id = Returned path ∧
    get_course_dir render full_split fs coursedir_root directory_structure
      nbgrader_step (Some student_id) (Some assignment_id)
    = get_files fs (RootPath path) [] ∅.
Proof.
  intros Hsplit Hps Hnames Hstep Hsid Haid.
  set (kw := course_kwargs nbgrader_step (Some student_id) (Some assignment_id)).
  assert (∀ n v, kw !! n = Some v → no_open v = true) as Hkw.
  { intros n v. unfold kw, course_kwargs.
    destruct (decide (n = "student_id")) as [->|H1].
    { rewrite lookup_insert_eq. by intros [= <-]. }
    rewrite lookup_insert_ne by done.
    destruct (decide (n = "assignment_id")) as [->|H2].
    { rewrite lookup_insert_eq. by intros [= <-]. }
    rewrite lookup_insert_ne by done.
    by intros [_ <-]%lookup_singleton_Some. }
  assert (∀ n, n ∈ placeholders (p :: ps) → is_Some (kw !! n)) as Hbound.
  { intros n Hn. apply Hnames in Hn. unfold kw. rewrite course_kwargs_all.
    repeat (apply elem_of_cons in Hn as [->|Hn]; [by eexists|]).
    by apply elem_of_nil in Hn. }
  exists (join_group (part_fill kw <$> (p :: ps))). split.
  - unfold construct_course_dir. rewrite Hsplit, <-course_kwargs_all.
    fold kw. by rewrite (mapM_str_format render render_plain kw).
  - unfold get_course_dir. fold kw.
    apply (scan_bound render render_plain); [done..| |done|done].
    apply course_kwargs_string.
Qed.

Lemma part_fill_literals (kw : kwargs) (ds : list string) :
  part_fill kw <$> (Literal <$> ds) = ds.
Proof.
  induction ds as [|d ds IH]; [done|]. rewrite !fmap_cons. by rewrite IH.
Qed.

Lemma part_text_literals (ds : list string) : part_text <$> (Literal <$> ds) = ds.
Proof.
  induction ds as [|d ds IH]; [done|]. rewrite !fmap_cons. by rewrite IH.
Qed.

Lemma join_group_app g xs :
  g ≠ [] → join_group (g ++ xs) = foldl path_join (join_group g) xs.
Proof. destruct g as [|x g]; [done|]. intros _. simpl. apply foldl_app. Qed.


Lemma scan_listed structure kw es :
  scan render full_split fs structure kw = Returned es →
  ∀ e, e ∈ es →
    isdir fs (root e) = true ∧
    ∃ names, listdir fs (root e) = Returned names ∧
             files e = path_join (root e) <$> names.
Proof.
  unfold scan.
  destruct (get_directory_structure render full_split structure kw)
    as [out|]; [|done].
  simpl. intros Hrun e He.
  exact (get_files_listed fs (RootList out) [] ∅ es Hrun e He).
Qed.

Lemma roots_listed structure kw paths :
  (entries ← scan render full_split fs structure kw; Returned (roots entries))
  = Returned paths →
  ∀ path, path ∈ paths → isdir fs path = true.
Proof.
  destruct (scan render full_split fs structure kw) as [es|] eqn:Hscan;
    [|done].
  simpl. intros [= <-] path (e & -> & He)%list_elem_of_fmap.
  by destruct (scan_listed _ _ _ Hscan e He).
Qed.

(** X16.  Every path that [get_local_submissions_paths],
    [get_local_feedback_paths], [get_local_autograded_paths],
    [get_local_release_paths] or [get_local_source_paths] returns is a
    directory that exists. *)
Theorem get_local_paths_exist student_id assignment_id paths :
  get_local_submissions_paths render full_split fs coursedir_root
    directory_structure submitted_directory student_id assignment_id
    = Returned paths ∨
  get_local_feedback_paths render full_split fs coursedir_root
    directory_structure feedback_directory student_id assignment_id
    = Returned paths ∨
  get_local_autograded_paths render full_split fs coursedir_root
    directory_structure autograded_directory student_id assignment_id
    = Returned paths ∨
  get_local_release_paths render full_split fs coursedir_root
    directory_structure release_directory student_id assignment_id
    = Returned paths ∨
  get_local_source_paths render full_split fs coursedir_root
    directory_structure source_directory student_id assignment_id
    = Returned paths →
  ∀ path, path ∈ paths → isdir fs path = true.
Proof.
  intros [H|[H|[H|[H|H]]]]; by eapply roots_listed.
Qed.

Lemma get_files_of_entries_raises entries :
  ∃ e, get_files_of_entries entries = Raised e.
Proof. destruct entries as [|x [|y entries]]; by eexists. Qed.


(** What an element of the list of [get_all_local_assignments] is: it has a
    status, and its files are the listing of a directory. *)
Local Abbreviation listed :=
  (λ a : found,
     is_Some (found_details a !! "status") ∧
     ∃ dir names,
       isdir fs dir = true ∧ listdir fs dir = Returned names ∧
       found_files a = path_join dir <$> names).

Lemma tagged_listed structure kw es status :
  scan render full_split fs structure kw = Returned es →
  Forall listed (tagged status <$> es).
Proof.
  intros Hscan. apply Forall_fmap, Forall_forall. intros e He.
  destruct (scan_listed _ _ _ Hscan e He) as (Hdir & names & Hls & Hfiles).
  split.
  - unfold tagged. simpl. destruct (details e !! "status") as [v|] eqn:Hv.
    + exists v. by apply lookup_union_Some_l.
    + exists status. by rewrite lookup_union_r, lookup_singleton_eq.
  - by exists (root e), names.
Qed.

Lemma fetched_listed structure kw es assign :
  scan render full_split fs structure kw = Returned es →
  Forall listed (fetched assign <$> es).
Proof.
  intros Hscan. apply Forall_fmap, Forall_forall. intros e He.
  destruct (scan_listed _ _ _ Hscan e He) as (Hdir & names & Hls & Hfiles).
  split.
  - unfold fetched. simpl. destruct (details e !! "status") as [v|] eqn:Hv.
    + exists v. by apply lookup_union_Some_l.
    + exists "fetched".
      by rewrite lookup_union_r, lookup_insert_ne, lookup_singleton_eq.
  - by exists (root e), names.
Qed.

Lemma get_fetched_from_listed assignments course_id : ∀ acc found_assignments,
  get_fetched_from render full_split fs assignment_dir path_includes_course
    acc assignments course_id = Returned found_assignments →
  Forall listed acc → Forall listed found_assignments.
Proof.
  induction assignments as [|assign assignments IH];
    intros acc found_assignments; simpl.
  - by intros [= <-].
  - destruct (get_assignment_dir render full_split fs assignment_dir
                path_includes_course course_id (Some assign) None)
      as [entries|] eqn:Hdir; [|done].
    simpl. intros Hrun Hacc. apply (IH _ _ Hrun).
    apply Forall_app. split; [done|]. by eapply fetched_listed.
Qed.

(** X18.  Every element of the list that [get_all_local_assignments]
    returns has a status in its details, and its files are the members of a
    directory that exists, each joined to the path of that directory. *)
Theorem get_all_local_assignments_listed assignments student_id course_id
    found_assignments :
  get_all_local_assignments render full_split fs coursedir_root
    directory_structure submitted_directory autograded_directory
    release_directory source_directory assignment_dir path_includes_course
    assignments student_id course_id = Returned found_assignments →
  ∀ a, a ∈ found_assignments →
    is_Some (found_details a !! "status") ∧
    ∃ dir names,
      isdir fs dir = true ∧ listdir fs dir = Returned names ∧
      found_files a = path_join dir <$> names.
Proof.
  unfold get_all_local_assignments, get_local_submissions, get_local_release,
    get_local_autograded, get_local_source, get_course_dir.
  destruct (get_fetched_from render full_split fs assignment_dir
              path_includes_course [] assignments course_id)
    as [fetched_ones|] eqn:Hfetched; [|done].
  simpl.
  destruct (scan render full_split fs _ (course_kwargs submitted_directory _ _))
    as [submitted|] eqn:Hsubmitted; [|done].
  simpl.
  destruct (scan render full_split fs _ (course_kwargs release_directory _ _))
    as [released|] eqn:Hreleased; [|done].
  simpl.
  destruct (scan render full_split fs _ (course_kwargs autograded_directory _ _))
    as [autograded|] eqn:Hautograded; [|done].
  simpl.
  destruct (scan render full_split fs _ (course_kwargs source_directory _ _))
    as [source|] eqn:Hsource; [|done].
  simpl. intros [= <-].
  apply Forall_forall. repeat (apply Forall_app; split).
  - by apply (get_fetched_from_listed _ _ _ _ Hfetched).
  - by eapply tagged_listed.
  - by eapply tagged_listed.
  - by eapply tagged_listed.
  - by eapply tagged_listed.
Qed.

End Directories.

Lemma get_all_local_assignments_listed_witness :
  get_all_local_assignments render_plain_only split_slash small_fs
    "." "{student_id}/{assignment_id}" "submitted" "autograded" "release"
    "source" "./s1" false ["ps1"] (Some "s1") None
  = Returned
      [Found {[ "assignment_id" := "ps1"; "status" := "fetched" ]}
         ["./s1/ps1/nb.ipynb"];
       Found {[ "assignment_id" := "ps1"; "status" := "submitted" ]}
         ["./s1/ps1/nb.ipynb"];
       Found {[ "assignment_id" := "ps1"; "status" := "released" ]}
         ["./s1/ps1/nb.ipynb"];
       Found {[ "assignment_id" := "ps1"; "status" := "autograded" ]}
         ["./s1/ps1/nb.ipynb"];
       Found {[ "assignment_id" := "ps1"; "status" := "source" ]}
         ["./s1/ps1/nb.ipynb"]] ∧
  is_Some (({[ "assignment_id" := "ps1"; "status" := "fetched" ]} : kwargs)
           !! "status") ∧
  ∃ dir names,
    isdir small_fs dir = true ∧ listdir small_fs dir = Returned names ∧
    ["./s1/ps1/nb.ipynb"] = path_join dir <$> names.
Proof.
  assert (get_all_local_assignments render_plain_only split_slash small_fs
            "." "{student_id}/{assignment_id}" "submitted" "autograded"
            "release" "source" "./s1" false ["ps1"] (Some "s1") None
          = Returned
              [Found {[ "assignment_id" := "ps1"; "status" := "fetched" ]}
                 ["./s1/ps1/nb.ipynb"];
               Found {[ "assignment_id" := "ps1"; "status" := "submitted" ]}
                 ["./s1/ps1/nb.ipynb"];
               Found {[ "assignment_id" := "ps1"; "status" := "released" ]}
                 ["./s1/ps1/nb.ipynb"];
               Found {[ "assignment_id" := "ps1"; "status" := "autograded" ]}
                 ["./s1/ps1/nb.ipynb"];
               Found {[ "assignment_id" := "ps1"; "status" := "source" ]}
                 ["./s1/ps1/nb.ipynb"]]) as Hrun
    by (vm_compute; reflexivity).
  split; [exact Hrun|].
  exact (get_all_local_assignments_listed _ _ _ _ _ _ _ _ _ _ _ _ _ _ _ Hrun
           (Found {[ "assignment_id" := "ps1"; "status" := "fetched" ]}
              ["./s1/ps1/nb.ipynb"]) (list_elem_of_here _ _)).
Defined.



Lemma construct_course_dir_scanned_witness :
  ∃ path,
    construct_course_dir render_plain_only split_slash
      "." "{student_id}/{assignment_id}" "submitted" "s1" "ps1"
    = Returned path ∧
    get_course_dir render_plain_only split_slash small_fs
      "." "{student_id}/{assignment_id}" "submitted" (Some "s1") (Some "ps1")
    = get_files small_fs (RootPath path) [] ∅.
Proof.
  apply (construct_course_dir_scanned render_plain_only render_plain_only_plain
           split_slash small_fs "." "{student_id}/{assignment_id}"
           "submitted" "s1" "ps1" (Literal ".")
           [Placeholder "student_id"; Placeholder "assignment_id"]);
    [reflexivity | by repeat constructor | | reflexivity..].
  intros n Hn. unfold placeholders in Hn. simpl in Hn.
  repeat (apply elem_of_cons in Hn as [->|Hn];
          [repeat (apply list_elem_of_here || apply list_elem_of_further)|]).
  by apply elem_of_nil in Hn.
Defined.


Lemma get_local_paths_exist_witness :
  get_local_submissions_paths render_plain_only split_slash small_fs
    "." "{student_id}/{assignment_id}" "submitted" None None
  = Returned ["./s1/ps1"] ∧
  isdir small_fs "./s1/ps1" = true.
Proof.
  assert (get_local_submissions_paths render_plain_only split_slash small_fs
            "." "{student_id}/{assignment_id}" "submitted" None None
          = Returned ["./s1/ps1"]) as Hrun by (vm_compute; reflexivity).
  split; [exact Hrun|].
  apply (get_local_paths_exist render_plain_only split_slash small_fs
           "." "{student_id}/{assignment_id}" "submitted" "feedback"
           "autograded" "release" "source" None None ["./s1/ps1"]);
    [by left | apply list_elem_of_here].
Defined.

(** The two ways in which [get_local_assignments] fails: the assignment
    directory holds the assignment, or it does not. *)
Example get_local_assignments_examples :
  get_local_assignments render_plain_only split_slash small_fs "./s1" false
    ["ps1"] None
  = Raised (TypeError
      "stat: path should be string, bytes, os.PathLike or integer, not dict") ∧
  get_local_assignments render_plain_only split_slash small_fs "./s1" false
    ["ps2"] None
  = Raised (IndexError "list index out of range").
Proof. split; vm_compute; reflexivity. Qed.

End LayoutFacts.

(** ** A missing assignment *)

Module NotFoundFacts.
Import NotFound.

#[local] Instance score_le_trans : Transitive score_le.
Proof.
  intros [a x] [b y] [c z]. unfold score_le. simpl.
  intros [Hab|[-> Hxy]] [Hbc|[-> Hyz]]; [left; lia | by left | by left |].
  right. split; [done|]. by etrans.
Qed.

#[local] Instance score_le_total : Total score_le.
Proof.
  intros [a x] [b y]. unfold score_le. simpl.
  destruct (Z.lt_trichotomy a b) as [?|[->|?]]; [by left; left| |by right; left].
  destruct (total String.le x y); [left|right]; by right.
Qed.

Lemma sorted_last (l : list (Z * string)) :
  l ≠ [] →
  ∃ best, last (sorted l) = Some best ∧ best ∈ l ∧
          ∀ x, x ∈ l → score_le x best.
Proof.
  intros Hne. unfold sorted.
  pose proof (merge_sort_Permutation score_le l) as Hperm.
  pose proof (StronglySorted_merge_sort score_le l) as Hsorted.
  destruct (merge_sort score_le l) as [|y ys] eqn:Hsort using rev_ind.
  { apply Permutation_nil_l in Hperm. by subst. }
  exists y. rewrite last_snoc. split; [done|]. split.
  - rewrite <-Hperm. apply elem_of_app. right. apply list_elem_of_here.
  - intros x Hx. rewrite <-Hperm in Hx.
    apply elem_of_app in Hx as [Hx| ->%list_elem_of_singleton].
    + eapply StronglySorted_app_1_elem_of; [done..|apply list_elem_of_here].
    + destruct (total score_le y y); done.
Qed.

Section NotFoundFacts.

Variable glob : string → list string.
Variable ratio : string → string → Z.
Variable self_src_path : string.

(** X19.  [_assignment_not_found] never returns: it raises
    [ExchangeError] with a message that names the missing path, whatever is
    found elsewhere.  The first line that it logs is that message; when the
    pattern matches something, a second line suggests one of the paths that
    matched, one whose similarity to the source path is the greatest; when
    nothing matches, there is no second line. *)
Theorem assignment_not_found_raises src_path other_path :
  (_assignment_not_found glob ratio self_src_path src_path other_path).1
  = Raised (ExchangeError ("Assignment not found at: " +:+ src_path)) ∧
  match glob other_path with
  | [] =>
      (_assignment_not_found glob ratio self_src_path src_path other_path).2
      = [LogFatal ("Assignment not found at: " +:+ src_path)]
  | _ :: _ =>
      ∃ best,
        (_assignment_not_found glob ratio self_src_path src_path other_path).2
        = [LogFatal ("Assignment not found at: " +:+ src_path);
           LogError ("Did you mean: " +:+ best)] ∧
        best ∈ glob other_path ∧
        ∀ x, x ∈ glob other_path →
             (ratio self_src_path x ≤ ratio self_src_path best)%Z
  end.
Proof.
  unfold _assignment_not_found. cbn [fst snd]. split; [done|].
  destruct (glob other_path) as [|y ys] eqn:Hglob; [done|].
  set (score := λ x, (ratio self_src_path x, x)).
  destruct (sorted_last (score <$> (y :: ys)))
    as ([s best] & Hlast & Hin & Hmax); [done|].
  rewrite Hlast. cbn [snd].
  apply list_elem_of_fmap in Hin as (b & [= -> ->] & Hb).
  exists b. split; [done|]. split; [done|].
  intros x Hx.
  destruct (Hmax (score x) (list_elem_of_fmap_2 score _ _ Hx))
    as [Hlt|[Heq _]]; unfold score in *; simpl in *; lia.
Qed.

End NotFoundFacts.

(** Among the candidates, the most similar one is suggested. *)
Example assignment_not_found_suggestion :
  _assignment_not_found
    (λ _, ["/srv/ps1"; "/srv/ps12"; "/srv/other"])
    (λ _ x, if bool_decide (x = "/srv/ps12") then 90%Z else 40%Z)
    "/srv/ps2" "/srv/ps2" "/srv/*"
  = (Raised (ExchangeError "Assignment not found at: /srv/ps2"),
     [LogFatal "Assignment not found at: /srv/ps2";
      LogError "Did you mean: /srv/ps12"]).
Proof. vm_compute; reflexivity. Qed.

End NotFoundFacts.
